(** * Boss-fight server: a shallow embedding of [server.js]

  The server keeps its game state in process-wide variables and runs
  handlers to completion on the Node.js event loop.  Here the variables are
  the fields of one record, [GameState]; every handler (or, for an [async]
  function, every stretch of code between two [await]s) is a function from
  the state to the new state and the list of effects it performs
  (broadcasts, timers, ledger calls).

  Numbers.  Hit points, hit counts and timestamps are integer-valued
  JavaScript numbers and are modelled in [Z]; so are the integers the ledger
  holds, which [BN.toNumber] hands over only below 2^53.  Amounts of lamports
  and SOL the server computes with are IEEE 754 doubles, [Double.t], with
  the rounding of every operation.

  Strings.  The text of a chat message and of the keyword configuration is a
  sequence of UTF-16 code units, [JsString.t], with the Unicode-aware
  [toUpperCase] and [trim] of JavaScript.  User names, wallet addresses,
  signatures and the like are only ever compared and are kept as [string]s.
  [console.log] output is not modelled. *)

From Stdlib Require Import ZArith List String Ascii Bool Lia.
From Stdlib Require Import Sorted Permutation.
From Stdlib Require Import Floats.SpecFloat.
Import ListNotations.

Local Open Scope string_scope.
Local Open Scope list_scope.
Local Open Scope Z_scope.

(** ** JavaScript strings

    A string is the sequence of its UTF-16 code units. *)

Module JsString.

Definition t := list Z.

(** The code units of a literal of the ASCII range. *)
Definition of_ascii (s : string) : t :=
  map (fun c => Z.of_N (N_of_ascii c)) (list_ascii_of_string s).

Fixpoint startsWith (text k : t) {struct k} : bool :=
  match k, text with
  | [], _ => true
  | _ :: _, [] => false
  | a :: k', b :: text' => (a =? b) && startsWith text' k'
  end.

(** [String.prototype.includes] *)
Fixpoint includes (text k : t) : bool :=
  startsWith text k ||
  match text with
  | [] => false
  | _ :: text' => includes text' k
  end.

(** Truthiness of a string: only the empty string is falsy. *)
Definition truthy (s : t) : bool :=
  match s with [] => false | _ :: _ => true end.

(** [s.split(',')] *)
Fixpoint split_comma (s : t) : list t :=
  match s with
  | [] => [[]]
  | c :: r =>
      if c =? 0x2C then [] :: split_comma r
      else match split_comma r with
           | h :: l => (c :: h) :: l
           | [] => [[c]]
           end
  end.

(** The code points ECMAScript calls WhiteSpace or LineTerminator: TAB, LF,
    VT, FF, CR, the space separators of Unicode (category Zs), LS, PS and the
    byte order mark.  All are single code units. *)
Definition white_space : list Z :=
  [0x9; 0xA; 0xB; 0xC; 0xD; 0x20; 0xA0; 0x1680;
   0x2000; 0x2001; 0x2002; 0x2003; 0x2004; 0x2005; 0x2006; 0x2007; 0x2008;
   0x2009; 0x200A; 0x2028; 0x2029; 0x202F; 0x205F; 0x3000; 0xFEFF].

Definition is_white_space (c : Z) : bool := existsb (Z.eqb c) white_space.

Fixpoint trimStart (s : t) : t :=
  match s with
  | [] => []
  | c :: r => if is_white_space c then trimStart r else s
  end.

Fixpoint trimEnd (s : t) : t :=
  match s with
  | [] => []
  | c :: r =>
      match trimEnd r with
      | [] => if is_white_space c then [] else [c]
      | r' => c :: r'
      end
  end.

(** [String.prototype.trim] *)
Definition trim (s : t) : t := trimEnd (trimStart s).

(** *** Code points *)

Definition is_high_surrogate (c : Z) : bool := (0xD800 <=? c) && (c <=? 0xDBFF).
Definition is_low_surrogate (c : Z) : bool := (0xDC00 <=? c) && (c <=? 0xDFFF).

(** The code points of a string: a high surrogate followed by a low one is
    one code point, every other code unit is a code point of its own. *)
Fixpoint codePoints (s : t) : list Z :=
  match s with
  | [] => []
  | a :: r =>
      match r with
      | b :: r' =>
          if is_high_surrogate a && is_low_surrogate b
          then (0x10000 + (a - 0xD800) * 0x400 + (b - 0xDC00)) :: codePoints r'
          else a :: codePoints r
      | [] => [a]
      end
  end.

(** The code units of a code point. *)
Definition codeUnits (cp : Z) : t :=
  if cp <? 0x10000 then [cp]
  else [0xD800 + (cp - 0x10000) / 0x400; 0xDC00 + (cp - 0x10000) mod 0x400].

(** *** Upper case

    [toUpperCase] maps every code point by the Unicode Character Database
    (here of Unicode 14.0): the upper-case mapping of UnicodeData.txt and the
    unconditional mappings of SpecialCasing.txt, which may give several code
    points.  [upper_ranges] lists the code points with a single upper-case
    code point as [(first, last, step, delta)]: the code points [first],
    [first + step], ..., [last] map to themselves plus [delta]. *)

Definition upper_ranges : list (Z * Z * Z * Z) :=
  [
   (0x61, 0x7A, 1, (-32)); (0xB5, 0xB5, 1, 743); (0xE0, 0xF6, 1, (-32));
   (0xF8, 0xFE, 1, (-32)); (0xFF, 0xFF, 1, 121); (0x101, 0x12F, 2, (-1));
   (0x131, 0x131, 1, (-232)); (0x133, 0x137, 2, (-1));
   (0x13A, 0x148, 2, (-1)); (0x14B, 0x177, 2, (-1));
   (0x17A, 0x17E, 2, (-1)); (0x17F, 0x17F, 1, (-300));
   (0x180, 0x180, 1, 195); (0x183, 0x185, 2, (-1)); (0x188, 0x188, 1, (-1));
   (0x18C, 0x18C, 1, (-1)); (0x192, 0x192, 1, (-1)); (0x195, 0x195, 1, 97);
   (0x199, 0x199, 1, (-1)); (0x19A, 0x19A, 1, 163); (0x19E, 0x19E, 1, 130);
   (0x1A1, 0x1A5, 2, (-1)); (0x1A8, 0x1A8, 1, (-1));
   (0x1AD, 0x1AD, 1, (-1)); (0x1B0, 0x1B0, 1, (-1));
   (0x1B4, 0x1B6, 2, (-1)); (0x1B9, 0x1B9, 1, (-1));
   (0x1BD, 0x1BD, 1, (-1)); (0x1BF, 0x1BF, 1, 56); (0x1C5, 0x1C5, 1, (-1));
   (0x1C6, 0x1C6, 1, (-2)); (0x1C8, 0x1C8, 1, (-1));
   (0x1C9, 0x1C9, 1, (-2)); (0x1CB, 0x1CB, 1, (-1));
   (0x1CC, 0x1CC, 1, (-2)); (0x1CE, 0x1DC, 2, (-1));
   (0x1DD, 0x1DD, 1, (-79)); (0x1DF, 0x1EF, 2, (-1));
   (0x1F2, 0x1F2, 1, (-1)); (0x1F3, 0x1F3, 1, (-2));
   (0x1F5, 0x1F5, 1, (-1)); (0x1F9, 0x21F, 2, (-1));
   (0x223, 0x233, 2, (-1)); (0x23C, 0x23C, 1, (-1));
   (0x23F, 0x240, 1, 10815); (0x242, 0x242, 1, (-1));
   (0x247, 0x24F, 2, (-1)); (0x250, 0x250, 1, 10783);
   (0x251, 0x251, 1, 10780); (0x252, 0x252, 1, 10782);
   (0x253, 0x253, 1, (-210)); (0x254, 0x254, 1, (-206));
   (0x256, 0x257, 1, (-205)); (0x259, 0x259, 1, (-202));
   (0x25B, 0x25B, 1, (-203)); (0x25C, 0x25C, 1, 42319);
   (0x260, 0x260, 1, (-205)); (0x261, 0x261, 1, 42315);
   (0x263, 0x263, 1, (-207)); (0x265, 0x265, 1, 42280);
   (0x266, 0x266, 1, 42308); (0x268, 0x268, 1, (-209));
   (0x269, 0x269, 1, (-211)); (0x26A, 0x26A, 1, 42308);
   (0x26B, 0x26B, 1, 10743); (0x26C, 0x26C, 1, 42305);
   (0x26F, 0x26F, 1, (-211)); (0x271, 0x271, 1, 10749);
   (0x272, 0x272, 1, (-213)); (0x275, 0x275, 1, (-214));
   (0x27D, 0x27D, 1, 10727); (0x280, 0x280, 1, (-218));
   (0x282, 0x282, 1, 42307); (0x283, 0x283, 1, (-218));
   (0x287, 0x287, 1, 42282); (0x288, 0x288, 1, (-218));
   (0x289, 0x289, 1, (-69)); (0x28A, 0x28B, 1, (-217));
   (0x28C, 0x28C, 1, (-71)); (0x292, 0x292, 1, (-219));
   (0x29D, 0x29D, 1, 42261); (0x29E, 0x29E, 1, 42258);
   (0x345, 0x345, 1, 84); (0x371, 0x373, 2, (-1)); (0x377, 0x377, 1, (-1));
   (0x37B, 0x37D, 1, 130); (0x3AC, 0x3AC, 1, (-38));
   (0x3AD, 0x3AF, 1, (-37)); (0x3B1, 0x3C1, 1, (-32));
   (0x3C2, 0x3C2, 1, (-31)); (0x3C3, 0x3CB, 1, (-32));
   (0x3CC, 0x3CC, 1, (-64)); (0x3CD, 0x3CE, 1, (-63));
   (0x3D0, 0x3D0, 1, (-62)); (0x3D1, 0x3D1, 1, (-57));
   (0x3D5, 0x3D5, 1, (-47)); (0x3D6, 0x3D6, 1, (-54));
   (0x3D7, 0x3D7, 1, (-8)); (0x3D9, 0x3EF, 2, (-1));
   (0x3F0, 0x3F0, 1, (-86)); (0x3F1, 0x3F1, 1, (-80)); (0x3F2, 0x3F2, 1, 7);
   (0x3F3, 0x3F3, 1, (-116)); (0x3F5, 0x3F5, 1, (-96));
   (0x3F8, 0x3F8, 1, (-1)); (0x3FB, 0x3FB, 1, (-1));
   (0x430, 0x44F, 1, (-32)); (0x450, 0x45F, 1, (-80));
   (0x461, 0x481, 2, (-1)); (0x48B, 0x4BF, 2, (-1));
   (0x4C2, 0x4CE, 2, (-1)); (0x4CF, 0x4CF, 1, (-15));
   (0x4D1, 0x52F, 2, (-1)); (0x561, 0x586, 1, (-48));
   (0x10D0, 0x10FA, 1, 3008); (0x10FD, 0x10FF, 1, 3008);
   (0x13F8, 0x13FD, 1, (-8)); (0x1C80, 0x1C80, 1, (-6254));
   (0x1C81, 0x1C81, 1, (-6253)); (0x1C82, 0x1C82, 1, (-6244));
   (0x1C83, 0x1C84, 1, (-6242)); (0x1C85, 0x1C85, 1, (-6243));
   (0x1C86, 0x1C86, 1, (-6236)); (0x1C87, 0x1C87, 1, (-6181));
   (0x1C88, 0x1C88, 1, 35266); (0x1D79, 0x1D79, 1, 35332);
   (0x1D7D, 0x1D7D, 1, 3814); (0x1D8E, 0x1D8E, 1, 35384);
   (0x1E01, 0x1E95, 2, (-1)); (0x1E9B, 0x1E9B, 1, (-59));
   (0x1EA1, 0x1EFF, 2, (-1)); (0x1F00, 0x1F07, 1, 8);
   (0x1F10, 0x1F15, 1, 8); (0x1F20, 0x1F27, 1, 8); (0x1F30, 0x1F37, 1, 8);
   (0x1F40, 0x1F45, 1, 8); (0x1F51, 0x1F57, 2, 8); (0x1F60, 0x1F67, 1, 8);
   (0x1F70, 0x1F71, 1, 74); (0x1F72, 0x1F75, 1, 86);
   (0x1F76, 0x1F77, 1, 100); (0x1F78, 0x1F79, 1, 128);
   (0x1F7A, 0x1F7B, 1, 112); (0x1F7C, 0x1F7D, 1, 126);
   (0x1FB0, 0x1FB1, 1, 8); (0x1FBE, 0x1FBE, 1, (-7205));
   (0x1FD0, 0x1FD1, 1, 8); (0x1FE0, 0x1FE1, 1, 8); (0x1FE5, 0x1FE5, 1, 7);
   (0x214E, 0x214E, 1, (-28)); (0x2170, 0x217F, 1, (-16));
   (0x2184, 0x2184, 1, (-1)); (0x24D0, 0x24E9, 1, (-26));
   (0x2C30, 0x2C5F, 1, (-48)); (0x2C61, 0x2C61, 1, (-1));
   (0x2C65, 0x2C65, 1, (-10795)); (0x2C66, 0x2C66, 1, (-10792));
   (0x2C68, 0x2C6C, 2, (-1)); (0x2C73, 0x2C73, 1, (-1));
   (0x2C76, 0x2C76, 1, (-1)); (0x2C81, 0x2CE3, 2, (-1));
   (0x2CEC, 0x2CEE, 2, (-1)); (0x2CF3, 0x2CF3, 1, (-1));
   (0x2D00, 0x2D25, 1, (-7264)); (0x2D27, 0x2D27, 1, (-7264));
   (0x2D2D, 0x2D2D, 1, (-7264)); (0xA641, 0xA66D, 2, (-1));
   (0xA681, 0xA69B, 2, (-1)); (0xA723, 0xA72F, 2, (-1));
   (0xA733, 0xA76F, 2, (-1)); (0xA77A, 0xA77C, 2, (-1));
   (0xA77F, 0xA787, 2, (-1)); (0xA78C, 0xA78C, 1, (-1));
   (0xA791, 0xA793, 2, (-1)); (0xA794, 0xA794, 1, 48);
   (0xA797, 0xA7A9, 2, (-1)); (0xA7B5, 0xA7C3, 2, (-1));
   (0xA7C8, 0xA7CA, 2, (-1)); (0xA7D1, 0xA7D1, 1, (-1));
   (0xA7D7, 0xA7D9, 2, (-1)); (0xA7F6, 0xA7F6, 1, (-1));
   (0xAB53, 0xAB53, 1, (-928)); (0xAB70, 0xABBF, 1, (-38864));
   (0xFF41, 0xFF5A, 1, (-32)); (0x10428, 0x1044F, 1, (-40));
   (0x104D8, 0x104FB, 1, (-40)); (0x10597, 0x105BB, 2, (-39));
   (0x10598, 0x105A1, 1, (-39)); (0x105A4, 0x105B1, 1, (-39));
   (0x105B4, 0x105B9, 1, (-39)); (0x105BC, 0x105BC, 1, (-39));
   (0x10CC0, 0x10CF2, 1, (-64)); (0x118C0, 0x118DF, 1, (-32));
   (0x16E60, 0x16E7F, 1, (-32)); (0x1E922, 0x1E943, 1, (-34))
  ].

Definition upper_special : list (Z * list Z) :=
  [
   (0xDF, [0x53; 0x53]); (0x149, [0x2BC; 0x4E]); (0x1F0, [0x4A; 0x30C]);
   (0x390, [0x399; 0x308; 0x301]); (0x3B0, [0x3A5; 0x308; 0x301]);
   (0x587, [0x535; 0x552]); (0x1E96, [0x48; 0x331]);
   (0x1E97, [0x54; 0x308]); (0x1E98, [0x57; 0x30A]);
   (0x1E99, [0x59; 0x30A]); (0x1E9A, [0x41; 0x2BE]);
   (0x1F50, [0x3A5; 0x313]); (0x1F52, [0x3A5; 0x313; 0x300]);
   (0x1F54, [0x3A5; 0x313; 0x301]); (0x1F56, [0x3A5; 0x313; 0x342]);
   (0x1F80, [0x1F08; 0x399]); (0x1F81, [0x1F09; 0x399]);
   (0x1F82, [0x1F0A; 0x399]); (0x1F83, [0x1F0B; 0x399]);
   (0x1F84, [0x1F0C; 0x399]); (0x1F85, [0x1F0D; 0x399]);
   (0x1F86, [0x1F0E; 0x399]); (0x1F87, [0x1F0F; 0x399]);
   (0x1F88, [0x1F08; 0x399]); (0x1F89, [0x1F09; 0x399]);
   (0x1F8A, [0x1F0A; 0x399]); (0x1F8B, [0x1F0B; 0x399]);
   (0x1F8C, [0x1F0C; 0x399]); (0x1F8D, [0x1F0D; 0x399]);
   (0x1F8E, [0x1F0E; 0x399]); (0x1F8F, [0x1F0F; 0x399]);
   (0x1F90, [0x1F28; 0x399]); (0x1F91, [0x1F29; 0x399]);
   (0x1F92, [0x1F2A; 0x399]); (0x1F93, [0x1F2B; 0x399]);
   (0x1F94, [0x1F2C; 0x399]); (0x1F95, [0x1F2D; 0x399]);
   (0x1F96, [0x1F2E; 0x399]); (0x1F97, [0x1F2F; 0x399]);
   (0x1F98, [0x1F28; 0x399]); (0x1F99, [0x1F29; 0x399]);
   (0x1F9A, [0x1F2A; 0x399]); (0x1F9B, [0x1F2B; 0x399]);
   (0x1F9C, [0x1F2C; 0x399]); (0x1F9D, [0x1F2D; 0x399]);
   (0x1F9E, [0x1F2E; 0x399]); (0x1F9F, [0x1F2F; 0x399]);
   (0x1FA0, [0x1F68; 0x399]); (0x1FA1, [0x1F69; 0x399]);
   (0x1FA2, [0x1F6A; 0x399]); (0x1FA3, [0x1F6B; 0x399]);
   (0x1FA4, [0x1F6C; 0x399]); (0x1FA5, [0x1F6D; 0x399]);
   (0x1FA6, [0x1F6E; 0x399]); (0x1FA7, [0x1F6F; 0x399]);
   (0x1FA8, [0x1F68; 0x399]); (0x1FA9, [0x1F69; 0x399]);
   (0x1FAA, [0x1F6A; 0x399]); (0x1FAB, [0x1F6B; 0x399]);
   (0x1FAC, [0x1F6C; 0x399]); (0x1FAD, [0x1F6D; 0x399]);
   (0x1FAE, [0x1F6E; 0x399]); (0x1FAF, [0x1F6F; 0x399]);
   (0x1FB2, [0x1FBA; 0x399]); (0x1FB3, [0x391; 0x399]);
   (0x1FB4, [0x386; 0x399]); (0x1FB6, [0x391; 0x342]);
   (0x1FB7, [0x391; 0x342; 0x399]); (0x1FBC, [0x391; 0x399]);
   (0x1FC2, [0x1FCA; 0x399]); (0x1FC3, [0x397; 0x399]);
   (0x1FC4, [0x389; 0x399]); (0x1FC6, [0x397; 0x342]);
   (0x1FC7, [0x397; 0x342; 0x399]); (0x1FCC, [0x397; 0x399]);
   (0x1FD2, [0x399; 0x308; 0x300]); (0x1FD3, [0x399; 0x308; 0x301]);
   (0x1FD6, [0x399; 0x342]); (0x1FD7, [0x399; 0x308; 0x342]);
   (0x1FE2, [0x3A5; 0x308; 0x300]); (0x1FE3, [0x3A5; 0x308; 0x301]);
   (0x1FE4, [0x3A1; 0x313]); (0x1FE6, [0x3A5; 0x342]);
   (0x1FE7, [0x3A5; 0x308; 0x342]); (0x1FF2, [0x1FFA; 0x399]);
   (0x1FF3, [0x3A9; 0x399]); (0x1FF4, [0x38F; 0x399]);
   (0x1FF6, [0x3A9; 0x342]); (0x1FF7, [0x3A9; 0x342; 0x399]);
   (0x1FFC, [0x3A9; 0x399]); (0xFB00, [0x46; 0x46]); (0xFB01, [0x46; 0x49]);
   (0xFB02, [0x46; 0x4C]); (0xFB03, [0x46; 0x46; 0x49]);
   (0xFB04, [0x46; 0x46; 0x4C]); (0xFB05, [0x53; 0x54]);
   (0xFB06, [0x53; 0x54]); (0xFB13, [0x544; 0x546]);
   (0xFB14, [0x544; 0x535]); (0xFB15, [0x544; 0x53B]);
   (0xFB16, [0x54E; 0x546]); (0xFB17, [0x544; 0x53D])
  ].

Definition in_range (c : Z) (r : Z * Z * Z * Z) : bool :=
  let '(first, last, step, _) := r in
  (first <=? c) && (c <=? last) && ((c - first) mod step =? 0).

Definition upperCodePoint (cp : Z) : list Z :=
  match find (fun e => fst e =? cp) upper_special with
  | Some (_, l) => l
  | None =>
      match find (in_range cp) upper_ranges with
      | Some (_, _, _, delta) => [cp + delta]
      | None => [cp]
      end
  end.

(** [String.prototype.toUpperCase] *)
Definition toUpperCase (s : t) : t :=
  flat_map codeUnits (flat_map upperCodePoint (codePoints s)).

End JsString.

(** The text of a literal. *)
Definition js (s : string) : JsString.t := JsString.of_ascii s.

(** Truthiness of a string that is only compared: the empty string is
    falsy. *)
Definition truthy (s : string) : bool :=
  match s with EmptyString => false | String _ _ => true end.

(** *** Case-insensitive comparison

    Two code units spell the same letter when they are equal or are the two
    cases of a letter of the ASCII range. *)
Definition same_letter (a b : Z) : Prop :=
  a = b \/ (0x41 <= a <= 0x5A /\ b = a + 0x20) \/
  (0x61 <= a <= 0x7A /\ b = a - 0x20).

(** Two strings that differ in the case of ASCII letters only. *)
Definition eq_ignore_case (s k : JsString.t) : Prop := Forall2 same_letter s k.

(** A contiguous piece of [m] spells [k] up to the case of its letters. *)
Definition spells_within (k m : JsString.t) : Prop :=
  exists pre piece post, m = pre ++ piece ++ post /\ eq_ignore_case piece k.

Definition is_ascii (s : JsString.t) : Prop := Forall (fun c => 0 <= c < 0x80) s.

(** The upper case of a code unit of the ASCII range. *)
Definition ascii_upper (c : Z) : Z :=
  if (0x61 <=? c) && (c <=? 0x7A) then c - 0x20 else c.

(** The spec's wording: [k] is a case-insensitive substring of [m].  For
    strings of every script this is read on the upper-case forms: that of
    [m] contains that of [k]. *)
Definition ci_substring (k m : JsString.t) : Prop :=
  exists pre post,
    JsString.toUpperCase m = pre ++ JsString.toUpperCase k ++ post.

(** ** JavaScript numbers

    A number is an IEEE 754 binary64 value; the operations are those of the
    standard library's specification of floating-point arithmetic, rounding
    to nearest, ties to even. *)
Module Double.

Definition t := spec_float.

Definition prec : Z := 53.
Definition emax : Z := 1024.

(** The number with the value of an integer (rounded when it has more than
    53 bits). *)
Definition of_Z (z : Z) : t := binary_normalize prec emax z 0 false.

Definition zero : t := S754_zero false.

Definition add : t -> t -> t := SFadd prec emax.
Definition sub : t -> t -> t := SFsub prec emax.
Definition mul : t -> t -> t := SFmul prec emax.
Definition div : t -> t -> t := SFdiv prec emax.

(** [Math.floor] *)
Definition floor (x : t) : t :=
  match x with
  | S754_finite s m e =>
      if e <? 0 then of_Z (Z.shiftr (cond_Zopp s (Zpos m)) (- e)) else x
  | _ => x
  end.

End Double.

(** [BN.prototype.toNumber] of bn.js: the integer as a number when it has
    at most 53 bits; it throws otherwise ([None]). *)
Module BN.

Definition toNumber (bn : Z) : option Z :=
  if Z.abs bn <? 2 ^ 53 then Some bn else None.

End BN.

(** ** JavaScript [Map], in insertion order *)

Module JsMap.
Section Assoc.
Context {V : Type}.

Definition t := list (string * V).

Fixpoint get (k : string) (m : t) : option V :=
  match m with
  | [] => None
  | (k', v) :: r => if String.eqb k k' then Some v else get k r
  end.

(** [set] overwrites the value of a key already present, which keeps its
    place, and appends a new key at the end. *)
Fixpoint set (k : string) (v : V) (m : t) : t :=
  match m with
  | [] => [(k, v)]
  | (k', v') :: r =>
      if String.eqb k k' then (k', v) :: r else (k', v') :: set k v r
  end.

Definition size (m : t) : nat := List.length m.

Definition entries (m : t) : list (string * V) := m.

Definition values (m : t) : list V := List.map snd m.

End Assoc.
Arguments t : clear implicits.
End JsMap.

(** [Array.prototype.sort] with a comparator: a stable sort.  The element [x]
  goes in front of the first [y] with [cmp x y <= 0], so equal elements keep
  their order. *)
Section ArraySort.
Context {A : Type} (cmp : A -> A -> Z).

Fixpoint sort_insert (x : A) (l : list A) : list A :=
  match l with
  | [] => [x]
  | y :: r => if cmp x y <=? 0 then x :: y :: r else y :: sort_insert x r
  end.

Fixpoint array_sort (l : list A) : list A :=
  match l with
  | [] => []
  | x :: r => sort_insert x (array_sort r)
  end.
End ArraySort.

(** [Array.prototype.slice(0, n)] for [n >= 0]. *)
Definition slice0 {A : Type} (n : nat) (l : list A) : list A := firstn n l.

(** ** Configuration

    [process.env], read once at start-up.  A variable read with a default
    ([process.env.X || d], [process.env.X ? ... : d]) is [None] when it is
    unset or empty; [env_ADMIN_WALLET], read as it is, is [None] when unset.
    [env_INITIAL_HP] and [env_FEE_PERCENTAGE] hold the value of [Number(...)]
    of a variable that is set. *)

Record Env := {
  env_TRIGGER_KEYWORDS : option JsString.t;
  env_HEAL_KEYWORDS : option JsString.t;
  env_INITIAL_HP : option Z;
  env_FEE_PERCENTAGE : option Z;
  env_ADMIN_SECRET : option string;
  env_ADMIN_WALLET : option string
}.

(** [x || d] for an environment variable. *)
Definition or_default {A : Type} (x : option A) (d : A) : A :=
  match x with Some v => v | None => d end.

(** [.split(',').map(s => s.trim()).filter(Boolean)] *)
Definition parseKeywords (s : JsString.t) : list JsString.t :=
  filter JsString.truthy (map JsString.trim (JsString.split_comma s)).

Definition LAMPORTS_PER_SOL : Z := 1000000000.
Definition BETTING_DURATION : Z := 60.
Definition FIGHT_DURATION : Z := 60.

(** ** Game state and effects *)

Inductive GamePhase := IDLE | BETTING | FIGHTING | ENDED.

Definition phase_eqb (a b : GamePhase) : bool :=
  match a, b with
  | IDLE, IDLE | BETTING, BETTING | FIGHTING, FIGHTING | ENDED, ENDED => true
  | _, _ => false
  end.

(** An entry of [chronological]: [{username, message, timestamp, delta}]. *)
Record HitEntry := {
  he_username : string;
  he_message : JsString.t;
  he_timestamp : Z;
  he_delta : Z
}.

(** A row of the leaderboard: [{username, hits}]. *)
Record Score := { username : string; hits : Z }.

(** A value of [onChainBets]. *)
Record BetInfo := {
  bet_username : option string;
  bet_amount : Double.t;
  bet_prediction : option string;
  bet_signature : option string;
  bet_timestamp : Z
}.

(** Program-derived addresses are functions of the round id. *)
Inductive PDA :=
| pda_betting_round (roundId : Z)
| pda_escrow (roundId : Z).

Definition getBettingRoundPDA (roundId : Z) : PDA := pda_betting_round roundId.
Definition getEscrowPDA (roundId : Z) : PDA := pda_escrow roundId.

(** What a timer runs when it fires; a timer handle is identified with it. *)
Inductive Callback :=
| cb_startFightingPhase (retryCount : Z)
| cb_endFight (reason : string).

Record GameState := {
  gamePhase : GamePhase;
  currentRoundId : Z;
  bossHP : Z;
  userHits : JsMap.t Z;
  chronological : list HitEntry;
  lastHitter : option string;
  totalHits : Z;
  bettingEndTime : option Z;
  fightEndTime : option Z;
  gameTimer : option Callback;
  bettingRoundPDA : option PDA;
  escrowPDA : option PDA;
  onChainBets : JsMap.t BetInfo;
  totalDeathBets : Double.t;
  totalSurvivalBets : Double.t
}.

(** Assignment to one variable. *)

Definition set_gamePhase (v : GamePhase) (s : GameState) : GameState :=
  Build_GameState v (currentRoundId s) (bossHP s) (userHits s)
    (chronological s) (lastHitter s) (totalHits s) (bettingEndTime s)
    (fightEndTime s) (gameTimer s) (bettingRoundPDA s) (escrowPDA s)
    (onChainBets s) (totalDeathBets s) (totalSurvivalBets s).

Definition set_currentRoundId (v : Z) (s : GameState) : GameState :=
  Build_GameState (gamePhase s) v (bossHP s) (userHits s) (chronological s)
    (lastHitter s) (totalHits s) (bettingEndTime s) (fightEndTime s)
    (gameTimer s) (bettingRoundPDA s) (escrowPDA s) (onChainBets s)
    (totalDeathBets s) (totalSurvivalBets s).

Definition set_bossHP (v : Z) (s : GameState) : GameState :=
  Build_GameState (gamePhase s) (currentRoundId s) v (userHits s)
    (chronological s) (lastHitter s) (totalHits s) (bettingEndTime s)
    (fightEndTime s) (gameTimer s) (bettingRoundPDA s) (escrowPDA s)
    (onChainBets s) (totalDeathBets s) (totalSurvivalBets s).

Definition set_userHits (v : JsMap.t Z) (s : GameState) : GameState :=
  Build_GameState (gamePhase s) (currentRoundId s) (bossHP s) v
    (chronological s) (lastHitter s) (totalHits s) (bettingEndTime s)
    (fightEndTime s) (gameTimer s) (bettingRoundPDA s) (escrowPDA s)
    (onChainBets s) (totalDeathBets s) (totalSurvivalBets s).

Definition set_chronological (v : list HitEntry) (s : GameState) : GameState :=
  Build_GameState (gamePhase s) (currentRoundId s) (bossHP s) (userHits s) v
    (lastHitter s) (totalHits s) (bettingEndTime s) (fightEndTime s)
    (gameTimer s) (bettingRoundPDA s) (escrowPDA s) (onChainBets s)
    (totalDeathBets s) (totalSurvivalBets s).

Definition set_lastHitter (v : option string) (s : GameState) : GameState :=
  Build_GameState (gamePhase s) (currentRoundId s) (bossHP s) (userHits s)
    (chronological s) v (totalHits s) (bettingEndTime s) (fightEndTime s)
    (gameTimer s) (bettingRoundPDA s) (escrowPDA s) (onChainBets s)
    (totalDeathBets s) (totalSurvivalBets s).

Definition set_totalHits (v : Z) (s : GameState) : GameState :=
  Build_GameState (gamePhase s) (currentRoundId s) (bossHP s) (userHits s)
    (chronological s) (lastHitter s) v (bettingEndTime s) (fightEndTime s)
    (gameTimer s) (bettingRoundPDA s) (escrowPDA s) (onChainBets s)
    (totalDeathBets s) (totalSurvivalBets s).

Definition set_bettingEndTime (v : option Z) (s : GameState) : GameState :=
  Build_GameState (gamePhase s) (currentRoundId s) (bossHP s) (userHits s)
    (chronological s) (lastHitter s) (totalHits s) v (fightEndTime s)
    (gameTimer s) (bettingRoundPDA s) (escrowPDA s) (onChainBets s)
    (totalDeathBets s) (totalSurvivalBets s).

Definition set_fightEndTime (v : option Z) (s : GameState) : GameState :=
  Build_GameState (gamePhase s) (currentRoundId s) (bossHP s) (userHits s)
    (chronological s) (lastHitter s) (totalHits s) (bettingEndTime s) v
    (gameTimer s) (bettingRoundPDA s) (escrowPDA s) (onChainBets s)
    (totalDeathBets s) (totalSurvivalBets s).

Definition set_gameTimer (v : option Callback) (s : GameState) : GameState :=
  Build_GameState (gamePhase s) (currentRoundId s) (bossHP s) (userHits s)
    (chronological s) (lastHitter s) (totalHits s) (bettingEndTime s)
    (fightEndTime s) v (bettingRoundPDA s) (escrowPDA s) (onChainBets s)
    (totalDeathBets s) (totalSurvivalBets s).

Definition set_bettingRoundPDA (v : option PDA) (s : GameState) : GameState :=
  Build_GameState (gamePhase s) (currentRoundId s) (bossHP s) (userHits s)
    (chronological s) (lastHitter s) (totalHits s) (bettingEndTime s)
    (fightEndTime s) (gameTimer s) v (escrowPDA s) (onChainBets s)
    (totalDeathBets s) (totalSurvivalBets s).

Definition set_escrowPDA (v : option PDA) (s : GameState) : GameState :=
  Build_GameState (gamePhase s) (currentRoundId s) (bossHP s) (userHits s)
    (chronological s) (lastHitter s) (totalHits s) (bettingEndTime s)
    (fightEndTime s) (gameTimer s) (bettingRoundPDA s) v (onChainBets s)
    (totalDeathBets s) (totalSurvivalBets s).

Definition set_onChainBets (v : JsMap.t BetInfo) (s : GameState) : GameState :=
  Build_GameState (gamePhase s) (currentRoundId s) (bossHP s) (userHits s)
    (chronological s) (lastHitter s) (totalHits s) (bettingEndTime s)
    (fightEndTime s) (gameTimer s) (bettingRoundPDA s) (escrowPDA s) v
    (totalDeathBets s) (totalSurvivalBets s).

Definition set_totalDeathBets (v : Double.t) (s : GameState) : GameState :=
  Build_GameState (gamePhase s) (currentRoundId s) (bossHP s) (userHits s)
    (chronological s) (lastHitter s) (totalHits s) (bettingEndTime s)
    (fightEndTime s) (gameTimer s) (bettingRoundPDA s) (escrowPDA s)
    (onChainBets s) v (totalSurvivalBets s).

Definition set_totalSurvivalBets (v : Double.t) (s : GameState) : GameState :=
  Build_GameState (gamePhase s) (currentRoundId s) (bossHP s) (userHits s)
    (chronological s) (lastHitter s) (totalHits s) (bettingEndTime s)
    (fightEndTime s) (gameTimer s) (bettingRoundPDA s) (escrowPDA s)
    (onChainBets s) (totalDeathBets s) v.

(** The result document of [buildResults]. *)
Record Results := {
  res_currentRoundId : Z;
  res_bossDefeated : bool;
  res_topDamageDealer : option string;
  res_topDamage : Z;
  res_lastHitter : option string;
  res_scores : list Score;
  res_totalHits : Z;
  res_totalDeathBets : Double.t;
  res_totalSurvivalBets : Double.t;
  res_bettingRoundPDA : option PDA
}.

(** A row of [payoutResults], amounts in SOL. *)
Record PayoutResult := {
  pr_username : string;
  pr_wallet : string;
  pr_betAmount : Double.t;
  pr_prizeShare : Double.t;
  pr_totalPayout : Double.t;
  pr_signature : string
}.

(** Broadcasts to the overlay clients, with the payload fields used here. *)
Inductive Broadcast :=
| update (bossHP maxHP : Z) (top : list Score) (lastHitter : option string)
    (latest : option HitEntry) (timeRemaining : Z)
| phase_change (gamePhase : GamePhase) (message : string)
| game_reset (gamePhase : GamePhase) (bossHP maxHP : Z)
| betting_update (totalDeathBets totalSurvivalBets : Double.t) (totalBets : nat)
| fight_ended (bossDefeated : bool) (results : Results)
| payouts_processed (bossDefeated : bool) (winningPrediction : string)
    (payouts : list PayoutResult)
| admin_error (message : string).

(** Calls to the ledger program. *)
Inductive LedgerCall :=
| rpc_initializeBettingRound
    (roundId bettingDuration fightDuration initialHp feePercentage : Z)
| rpc_startFightPhase (bettingRound : option PDA)
| rpc_endFight (bettingRound : option PDA)
| rpc_claimPayout (betAccount bettor : string)
| rpc_claimFees.

Inductive Effect :=
| io_emit (b : Broadcast)
| socket_emit (b : Broadcast)
| setTimeout (cb : Callback) (ms : Z)
| clearTimeout (t : Callback)
| rpc (c : LedgerCall)
| call_processPayouts
| call_loadBettingData
| exportResults (r : Results)
| res_json (status : Z).

(** What a ledger call or an account read throws. *)
Record RpcError := { errorCode : option string }.

(** The on-chain betting round, as [program.account.bettingRound.fetch]
    returns it.  The totals, the count and the round id are [BN] integers
    (u64 on the ledger), the fee percentage is a number (u8). *)
Record BettingRoundAccount := {
  acc_bossDefeated : bool;
  acc_totalDeathBets : Z;
  acc_totalSurvivalBets : Z;
  acc_totalBetsCount : Z;
  acc_feePercentage : Z;
  acc_roundId : Z
}.

(** An on-chain bet; [bd_prediction] is [Object.keys(prediction)[0]],
    [bd_amount] (u64) and [bd_timestamp] (i64) are [BN] integers. *)
Record BetData := {
  bd_username : string;
  bd_amount : Z;
  bd_prediction : string;
  bd_bettor : string;
  bd_timestamp : Z
}.

(** One account of [getProgramAccounts], with the ledger's answers for it:
    [ba_fetch] is the fetched bet ([None]: the fetch throws) and [ba_claim] the
    signature [claimPayout] returns for it ([None]: the call throws). *)
Record BetAccount := {
  ba_pubkey : string;
  ba_fetch : option BetData;
  ba_claim : option string
}.

(** How a call ends. *)
Inductive Completion (A : Type) :=
| returned (v : A)
| thrown.
Arguments returned {A} v.
Arguments thrown {A}.

(** Body of [POST /api/bet-notification].  [bn_amount] is the number that
    [amount * LAMPORTS_PER_SOL] converts [amount] to: the number itself,
    [NaN] for a missing amount, and so on. *)
Record BetNotification := {
  bn_walletAddress : string;
  bn_username : option string;
  bn_amount : Double.t;
  bn_prediction : option string;
  bn_signature : option string
}.

(** Payload of the admin socket events. *)
Record AdminData := {
  adminKey : option string;
  walletAddress : option string
}.

Definition option_string_eqb (a b : option string) : bool :=
  match a, b with
  | Some x, Some y => String.eqb x y
  | None, None => true
  | _, _ => false
  end.

Definition option_truthy (a : option string) : bool :=
  match a with Some x => truthy x | None => false end.

(** [clearTimeout(gameTimer)] *)
Definition clear_timer (t : option Callback) : list Effect :=
  match t with Some cb => [clearTimeout cb] | None => [] end.

(** The configuration of the spec's end-to-end scenarios:
    [INITIAL_HP=3], [TRIGGER_KEYWORDS="HIT"], [HEAL_KEYWORDS="HEAL"]. *)
Definition scenarioEnv : Env := {|
  env_TRIGGER_KEYWORDS := Some (js "HIT");
  env_HEAL_KEYWORDS := Some (js "HEAL");
  env_INITIAL_HP := Some 3;
  env_FEE_PERCENTAGE := None;
  env_ADMIN_SECRET := None;
  env_ADMIN_WALLET := Some "admin-wallet"
|}.

Section Server.

Variable env : Env.

(** The defaults are ['HIT,■■'] and ['HEAL,❤■'] with the code units of
    U+25A0 and U+2764. *)
Definition TRIGGER_KEYWORDS : list JsString.t :=
  parseKeywords
    (or_default (env_TRIGGER_KEYWORDS env) (js "HIT," ++ [0x25A0; 0x25A0])).
Definition HEAL_KEYWORDS : list JsString.t :=
  parseKeywords
    (or_default (env_HEAL_KEYWORDS env) (js "HEAL," ++ [0x2764; 0x25A0])).
Definition INITIAL_HP : Z := or_default (env_INITIAL_HP env) 30.
Definition FEE_PERCENTAGE : Z := or_default (env_FEE_PERCENTAGE env) 5.
Definition ADMIN_SECRET : string := or_default (env_ADMIN_SECRET env) "aaa".
Definition ADMIN_WALLET : option string := env_ADMIN_WALLET env.

(** The in-memory state at start-up. *)
Definition initialState : GameState := {|
  gamePhase := IDLE;
  currentRoundId := 0;
  bossHP := INITIAL_HP;
  userHits := [];
  chronological := [];
  lastHitter := None;
  totalHits := 0;
  bettingEndTime := None;
  fightEndTime := None;
  gameTimer := None;
  bettingRoundPDA := None;
  escrowPDA := None;
  onChainBets := [];
  totalDeathBets := Double.zero;
  totalSurvivalBets := Double.zero
|}.

(** *** Leaderboard *)

Definition scoreOf (e : string * Z) : Score :=
  {| username := fst e; hits := snd e |}.

(** The comparator [(a, b) => b.hits - a.hits]. *)
Definition byHits (a b : Score) : Z := hits b - hits a.

Definition getTop (s : GameState) (n : nat) : list Score :=
  let arr := map scoreOf (JsMap.entries (userHits s)) in
  let arr := array_sort byHits arr in
  slice0 n arr.

(** [lamports / LAMPORTS_PER_SOL] *)
Definition in_SOL (lamports : Double.t) : Double.t :=
  Double.div lamports (Double.of_Z LAMPORTS_PER_SOL).

Definition buildResults (s : GameState) (bossDefeated : bool) : Results :=
  let top := hd_error (getTop s 1) in
  {| res_currentRoundId := currentRoundId s;
     res_bossDefeated := bossDefeated;
     res_topDamageDealer := option_map username top;
     res_topDamage := match top with Some t => hits t | None => 0 end;
     res_lastHitter := lastHitter s;
     res_scores := map scoreOf (JsMap.entries (userHits s));
     res_totalHits := totalHits s;
     res_totalDeathBets := in_SOL (totalDeathBets s);
     res_totalSurvivalBets := in_SOL (totalSurvivalBets s);
     res_bettingRoundPDA := bettingRoundPDA s |}.

(** *** Reset *)

Definition resetGame (s : GameState) : GameState * list Effect :=
  ({| gamePhase := IDLE;
      currentRoundId := 0;
      bossHP := INITIAL_HP;
      userHits := [];
      chronological := [];
      lastHitter := None;
      totalHits := 0;
      bettingEndTime := None;
      fightEndTime := None;
      gameTimer := None;
      bettingRoundPDA := None;
      escrowPDA := None;
      onChainBets := [];
      totalDeathBets := Double.zero;
      totalSurvivalBets := Double.zero |},
   clear_timer (gameTimer s) ++ [io_emit (game_reset IDLE INITIAL_HP INITIAL_HP)]).

(** *** Chat messages *)

(** [KEYWORDS.some(k => k && text.includes(k.toUpperCase()))] *)
Definition hasKeyword (keywords : list JsString.t) (text : JsString.t) : bool :=
  existsb
    (fun k => JsString.truthy k && JsString.includes text (JsString.toUpperCase k))
    keywords.

(** Steps 1 to 3 of [handleChatMessage]: the delta of a message. *)
Definition messageDelta (message : JsString.t) : Z :=
  (* [message || ''] is [message] for a string *)
  let text := JsString.toUpperCase message in
  let hasHitKeyword := hasKeyword TRIGGER_KEYWORDS text in
  let hasHealKeyword := hasKeyword HEAL_KEYWORDS text in
  if hasHitKeyword && negb hasHealKeyword then -1
  else if hasHealKeyword && negb hasHitKeyword then 1
  else 0.

Definition handleChatMessage (s : GameState) (username : string)
    (message : JsString.t) (timestamp now : Z) : GameState * list Effect :=
  if negb (phase_eqb (gamePhase s) FIGHTING) then (s, []) else
  let delta := messageDelta message in
  if delta =? 0 then (s, []) else
  let hitsDelta := Z.abs delta in
  let s1 :=
    if delta <? 0 then
      let s := set_totalHits (totalHits s + hitsDelta) s in
      let prev := or_default (JsMap.get username (userHits s)) 0 in
      let s := set_userHits (JsMap.set username (prev + hitsDelta) (userHits s)) s in
      set_lastHitter (Some username) s
    else s in
  let entry := {| he_username := username; he_message := message;
                  he_timestamp := timestamp; he_delta := delta |} in
  let s2 := set_chronological (chronological s1 ++ [entry]) s1 in
  let s3 := set_bossHP (Z.max 0 (Z.min INITIAL_HP (bossHP s2 + delta))) s2 in
  (s3, [io_emit (update (bossHP s3) INITIAL_HP (getTop s3 3) (lastHitter s3)
                   (Some entry)
                   (Z.max 0 (or_default (fightEndTime s3) 0 - now)))]).

(** [pumpSocket.on('message', ...)] *)
Definition onChatMessage (s : GameState) (username : string)
    (message : JsString.t) (timestamp now : Z) : GameState * list Effect :=
  if phase_eqb (gamePhase s) FIGHTING
  then handleChatMessage s username message timestamp now
  else (s, []).

(** [GET /test] *)
Definition getTest (s : GameState) (user : option string)
    (msg : option JsString.t) (now : Z) : GameState * list Effect :=
  let user := if option_truthy user then or_default user "" else "tester" in
  let msg :=
    match msg with
    | Some m => if JsString.truthy m then m else js "HIT"
    | None => js "HIT"
    end in
  let (s', eff) :=
    if phase_eqb (gamePhase s) FIGHTING
    then handleChatMessage s user msg now now
    else (s, []) in
  (s', eff ++ [res_json 200]).

(** *** Betting phase

    [startBettingPhase] awaits the ledger once: [startBettingPhase_begin] runs
    up to the call of [initializeBettingRound], [startBettingPhase_resume]
    from its answer ([ok = false]: the call throws). *)

Definition startBettingPhase_begin (s : GameState) (now : Z)
    : GameState * list Effect :=
  if negb (phase_eqb (gamePhase s) IDLE) && negb (phase_eqb (gamePhase s) ENDED)
  then (s, [])
  else
    let (s, eff) := resetGame s in
    let s := set_currentRoundId now s in
    let s := set_bettingRoundPDA (Some (getBettingRoundPDA (currentRoundId s))) s in
    let s := set_escrowPDA (Some (getEscrowPDA (currentRoundId s))) s in
    (s, eff ++ [rpc (rpc_initializeBettingRound (currentRoundId s)
                       BETTING_DURATION FIGHT_DURATION INITIAL_HP FEE_PERCENTAGE)]).

Definition startBettingPhase_resume (s : GameState) (ok : bool) (now : Z)
    : GameState * list Effect :=
  if ok then
    let s := set_gamePhase BETTING s in
    let s := set_bettingEndTime (Some (now + BETTING_DURATION * 1000)) s in
    match bettingRoundPDA s, escrowPDA s with
    | Some _, Some _ =>
        (set_gameTimer (Some (cb_startFightingPhase 0)) s,
         [io_emit (phase_change (gamePhase s)
            "Betting phase started! Place your bets on boss death or survival!");
          setTimeout (cb_startFightingPhase 0) (BETTING_DURATION * 1000)])
    | _, _ =>
        (* [toString] of a cleared address throws: the catch block *)
        (set_gamePhase IDLE s, [])
    end
  else (set_gamePhase IDLE s, []).

(** *** Fighting phase

    [startFightingPhase(retryCount)] in its stretches: up to the call of
    [startFightPhase]; from its answer to the call of [loadBettingData]; from
    the return of that to the end; and the catch block. *)

Definition startFightingPhase_begin (s : GameState) (retryCount : Z)
    : list Effect :=
  if negb (phase_eqb (gamePhase s) BETTING) then []
  else [rpc (rpc_startFightPhase (bettingRoundPDA s))].

Definition startFightingPhase_started (s : GameState) (now : Z)
    : GameState * list Effect :=
  let s := set_gamePhase FIGHTING s in
  let s := set_fightEndTime (Some (now + FIGHT_DURATION * 1000)) s in
  (s, [call_loadBettingData]).

Definition startFightingPhase_finish (s : GameState)
    : GameState * list Effect :=
  (set_gameTimer (Some (cb_endFight "timeout")) s,
   [io_emit (phase_change (gamePhase s)
      "Apex Gauntlet started! You have 1 minute to defeat the boss!");
    setTimeout (cb_endFight "timeout") (FIGHT_DURATION * 1000)]).

(** [error.error?.errorCode?.code === 'BettingStillActive'] *)
Definition isBettingStillActive (error : RpcError) : bool :=
  option_string_eqb (errorCode error) (Some "BettingStillActive").

Definition startFightingPhase_catch (s : GameState) (retryCount : Z)
    (error : RpcError) : GameState * list Effect :=
  if isBettingStillActive error && (retryCount <? 5) then
    (s, [setTimeout (cb_startFightingPhase (retryCount + 1)) 2000])
  else if retryCount >=? 5 then
    (set_gamePhase IDLE s,
     [io_emit (phase_change IDLE
        "Failed to start fight phase. Please try starting a new betting round.")])
  else (s, []).

(** The invocations of [startFightingPhase] that follow one another when the
    ledger answers [startFightPhase] with the errors of [errors], one per
    invocation, and nothing else happens in between: each retry timer fires
    and runs the next invocation.  Returns the state and the effects, oldest
    first. *)
Fixpoint startFightingPhase_failing (s : GameState) (retryCount : Z)
    (errors : list RpcError) : GameState * list Effect :=
  match errors with
  | [] => (s, [])
  | error :: later =>
      match startFightingPhase_begin s retryCount with
      | [] => (s, [])
      | eff0 =>
          let (s1, eff1) := startFightingPhase_catch s retryCount error in
          match eff1 with
          | [setTimeout (cb_startFightingPhase next) _] =>
              let (s2, eff2) := startFightingPhase_failing s1 next later in
              (s2, eff0 ++ eff1 ++ eff2)
          | _ => (s1, eff0 ++ eff1)
          end
      end
  end.

(** [loadBettingData], one stretch per [await]: from the answer of the
    round's read to the listing of the bet accounts (a [toNumber] that throws
    ends the function, with the assignments made so far); from the listing
    to the first read of a bet; and from the answer of a bet's read to the
    next one (a [toNumber] that throws is caught, and the bet left out). *)
Definition loadBettingData_totals (s : GameState) (account : BettingRoundAccount)
    : GameState * Completion unit :=
  match BN.toNumber (acc_totalDeathBets account) with
  | None => (s, thrown)
  | Some death =>
      let s := set_totalDeathBets (Double.of_Z death) s in
      match BN.toNumber (acc_totalSurvivalBets account) with
      | None => (s, thrown)
      | Some survival =>
          let s := set_totalSurvivalBets (Double.of_Z survival) s in
          match BN.toNumber (acc_totalBetsCount account) with
          | None => (s, thrown)
          | Some _ => (s, returned tt)
          end
      end
  end.

Definition loadBettingData_clear (s : GameState) : GameState :=
  set_onChainBets [] s.

Definition loadBettingData_bet (s : GameState) (betData : BetData)
    : GameState :=
  match BN.toNumber (bd_amount betData), BN.toNumber (bd_timestamp betData) with
  | Some amount, Some timestamp =>
      set_onChainBets
        (JsMap.set (bd_bettor betData)
           {| bet_username := Some (bd_username betData);
              bet_amount := Double.of_Z amount;
              bet_prediction := Some (bd_prediction betData);
              bet_signature := None;
              bet_timestamp := timestamp |}
           (onChainBets s)) s
  | _, _ => s
  end.

Definition loadBettingData_done (s : GameState) : list Effect :=
  [io_emit (betting_update (in_SOL (totalDeathBets s))
              (in_SOL (totalSurvivalBets s)) (JsMap.size (onChainBets s)))].

(** *** End of the fight *)

(** [endFight(reason)] up to the ledger call; the third component is
    [bossDefeated] when the function goes on. *)
Definition endFight_begin (s : GameState) (reason : string)
    : GameState * list Effect * option bool :=
  if negb (phase_eqb (gamePhase s) FIGHTING) then (s, [], None)
  else
    let bossDefeated := String.eqb reason "defeated" || (bossHP s =? 0) in
    (s, clear_timer (gameTimer s) ++ [rpc (rpc_endFight (bettingRoundPDA s))],
     Some bossDefeated).

(** After the ledger call returned. *)
Definition endFight_settle : list Effect := [call_processPayouts].

(** After [processPayouts] returned. *)
Definition endFight_finish (s : GameState) (bossDefeated : bool)
    : GameState * list Effect :=
  let s := set_gamePhase ENDED s in
  let results := buildResults s bossDefeated in
  (s, [io_emit (fight_ended bossDefeated results); exportResults results]).

(** *** Settlement *)

Definition claimFees (s : GameState) : list Effect :=
  match bettingRoundPDA s, escrowPDA s with
  | Some _, Some _ => [rpc rpc_claimFees]
  | _, _ => []
  end.

(** The body of the loop over the bet accounts: the effects and the row
    pushed on [payoutResults], if any.  A fetch or a [toNumber] that throws
    is caught by the loop's [catch].  The pools and the bet are integers
    below 2^53, the arithmetic on them is that of numbers. *)
Definition processBetAccount (winningPrediction : string)
    (totalLoserBets totalWinnerBets feePercentage : Z) (a : BetAccount)
    : list Effect * list PayoutResult :=
  match ba_fetch a with
  | None => ([], [])
  | Some betData =>
      let betPrediction := bd_prediction betData in
      match BN.toNumber (bd_amount betData) with
      | None => ([], [])
      | Some betAmount =>
          let bettor := bd_bettor betData in
          if String.eqb betPrediction winningPrediction then
            let feeAmount :=
              Double.floor
                (Double.div
                   (Double.mul (Double.of_Z totalLoserBets)
                      (Double.of_Z feePercentage))
                   (Double.of_Z 100)) in
            let prizePool := Double.sub (Double.of_Z totalLoserBets) feeAmount in
            let prizeShare :=
              Double.floor
                (Double.div (Double.mul prizePool (Double.of_Z betAmount))
                   (Double.of_Z totalWinnerBets)) in
            let totalPayout := Double.add (Double.of_Z betAmount) prizeShare in
            ([rpc (rpc_claimPayout (ba_pubkey a) bettor)],
             match ba_claim a with
             | Some tx =>
                 [{| pr_username := bd_username betData;
                     pr_wallet := bettor;
                     pr_betAmount := in_SOL (Double.of_Z betAmount);
                     pr_prizeShare := in_SOL prizeShare;
                     pr_totalPayout := in_SOL totalPayout;
                     pr_signature := tx |}]
             | None => []
             end)
          else ([], [])
      end
  end.

Fixpoint processBetAccounts (winningPrediction : string)
    (totalLoserBets totalWinnerBets feePercentage : Z) (l : list BetAccount)
    : list Effect * list PayoutResult :=
  match l with
  | [] => ([], [])
  | a :: r =>
      let (eff, rows) :=
        processBetAccount winningPrediction totalLoserBets totalWinnerBets
          feePercentage a in
      let (eff', rows') :=
        processBetAccounts winningPrediction totalLoserBets totalWinnerBets
          feePercentage r in
      (eff ++ eff', rows ++ rows')
  end.

Definition winningPredictionOf (account : BettingRoundAccount) : string :=
  if acc_bossDefeated account then "death" else "survival".

Definition totalWinnerBetsOf (account : BettingRoundAccount) : Z :=
  if acc_bossDefeated account
  then acc_totalDeathBets account else acc_totalSurvivalBets account.

Definition totalLoserBetsOf (account : BettingRoundAccount) : Z :=
  if acc_bossDefeated account
  then acc_totalSurvivalBets account else acc_totalDeathBets account.

(** [processPayouts], the state taken as it is when the function starts.
    [fetched] is the betting round read from the ledger and [accounts] the
    result of [getProgramAccounts]; [None] stands for a read that throws.
    A total of 2^53 lamports or more makes [toNumber] throw. *)
Definition processPayouts (s : GameState) (fetched : option BettingRoundAccount)
    (accounts : option (list BetAccount))
    : list Effect * Completion (option (list PayoutResult)) :=
  match bettingRoundPDA s with
  | None => ([], returned None)
  | Some _ =>
      match fetched with
      | None => ([], thrown)
      | Some bettingRoundAccount =>
          let bossDefeated := acc_bossDefeated bettingRoundAccount in
          match BN.toNumber (acc_totalDeathBets bettingRoundAccount),
                BN.toNumber (acc_totalSurvivalBets bettingRoundAccount) with
          | Some totalDeathBetsLamports, Some totalSurvivalBetsLamports =>
              let winningPrediction := winningPredictionOf bettingRoundAccount in
              let totalWinnerBets :=
                if bossDefeated
                then totalDeathBetsLamports else totalSurvivalBetsLamports in
              let totalLoserBets :=
                if bossDefeated
                then totalSurvivalBetsLamports else totalDeathBetsLamports in
              if totalWinnerBets =? 0 then (claimFees s, returned None)
              else
                match accounts with
                | None => ([], thrown)
                | Some betAccounts =>
                    let (eff, payoutResults) :=
                      processBetAccounts winningPrediction totalLoserBets
                        totalWinnerBets (acc_feePercentage bettingRoundAccount)
                        betAccounts in
                    (eff ++ claimFees s ++
                     [io_emit (payouts_processed bossDefeated winningPrediction
                                 payoutResults)],
                     returned (Some payoutResults))
                end
          | _, _ => ([], thrown)
          end
      end
  end.

(** *** Bet notifications *)

(** [POST /api/bet-notification] with a JSON body. *)
Definition betNotification (s : GameState) (body : BetNotification) (now : Z)
    : GameState * list Effect :=
  let lamports := Double.mul (bn_amount body) (Double.of_Z LAMPORTS_PER_SOL) in
  let s :=
    set_onChainBets
      (JsMap.set (bn_walletAddress body)
         {| bet_username := bn_username body;
            bet_amount := lamports;
            bet_prediction := bn_prediction body;
            bet_signature := bn_signature body;
            bet_timestamp := now |}
         (onChainBets s)) s in
  let s :=
    if option_string_eqb (bn_prediction body) (Some "death")
    then set_totalDeathBets (Double.add (totalDeathBets s) lamports) s
    else set_totalSurvivalBets (Double.add (totalSurvivalBets s) lamports) s in
  (s, [io_emit (betting_update (in_SOL (totalDeathBets s))
                  (in_SOL (totalSurvivalBets s)) (JsMap.size (onChainBets s)));
       res_json 200]).

(** *** Admin events *)

Definition admin_reset (s : GameState) (data : option AdminData)
    : GameState * list Effect :=
  match data with
  | None => (s, [socket_emit (admin_error "Missing credentials")])
  | Some data =>
      if negb (option_truthy (adminKey data)) || negb (option_truthy (walletAddress data))
      then (s, [socket_emit (admin_error "Missing credentials")])
      else if negb (option_string_eqb (walletAddress data) ADMIN_WALLET)
      then (s, [socket_emit (admin_error "Unauthorized wallet")])
      else if option_string_eqb (adminKey data) (Some ADMIN_SECRET)
      then resetGame s
      else (s, [socket_emit (admin_error "Invalid admin key")])
  end.

Definition admin_start_betting (s : GameState) (data : option AdminData) (now : Z)
    : GameState * list Effect :=
  match data with
  | Some data =>
      if option_string_eqb (adminKey data) (Some ADMIN_SECRET)
         && option_string_eqb (walletAddress data) ADMIN_WALLET
      then startBettingPhase_begin s now
      else (s, [socket_emit (admin_error "Unauthorized")])
  | None => (s, [socket_emit (admin_error "Unauthorized")])
  end.

(** *** The event loop

    One step is one stretch of code run to completion.  A stretch that resumes
    an [async] function may run whenever its [await] has been answered; the
    relation lets it run at any time, which only adds behaviours. *)

Inductive step : GameState -> GameState -> Prop :=
| step_chat s username message timestamp now :
    step s (fst (onChatMessage s username message timestamp now))
| step_test s user msg now :
    step s (fst (getTest s user msg now))
| step_admin_reset s data :
    step s (fst (admin_reset s data))
| step_admin_start_betting s data now :
    step s (fst (admin_start_betting s data now))
| step_betting_resume s ok now :
    step s (fst (startBettingPhase_resume s ok now))
| step_fighting_started s now :
    step s (fst (startFightingPhase_started s now))
| step_load_totals s account :
    step s (fst (loadBettingData_totals s account))
| step_load_clear s :
    step s (loadBettingData_clear s)
| step_load_bet s betData :
    step s (loadBettingData_bet s betData)
| step_fighting_finish s :
    step s (fst (startFightingPhase_finish s))
| step_fighting_catch s retryCount error :
    step s (fst (startFightingPhase_catch s retryCount error))
| step_end_fight_finish s bossDefeated :
    step s (fst (endFight_finish s bossDefeated))
| step_bet_notification s body now :
    step s (fst (betNotification s body now)).

Inductive reachable : GameState -> Prop :=
| reachable_init : reachable initialState
| reachable_step s s' : reachable s -> step s s' -> reachable s'.

(** *** Quantities of the spec *)

(** Σ userHits.values *)
Definition sumHits (m : JsMap.t Z) : Z :=
  fold_right Z.add 0 (JsMap.values m).

(** count{entries in chronological with delta = −1} *)
Definition countDamage (l : list HitEntry) : Z :=
  Z.of_nat (List.length (filter (fun e => he_delta e =? -1) l)).

(** Invariant 1 of the spec. *)
Definition hp_in_range (s : GameState) : Prop := 0 <= bossHP s <= INITIAL_HP.

(** Invariant 2 of the spec. *)
Definition hits_consistent (s : GameState) : Prop :=
  totalHits s = sumHits (userHits s) /\
  totalHits s = countDamage (chronological s).

(** Non-increasing order of hits. *)
Definition hits_ge (a b : Score) : Prop := hits b <= hits a.

(** The spec's [hasHit] and [hasHeal]: some keyword of the set is a
    case-insensitive substring of the message. *)
Definition anyKeywordIn (keywords : list JsString.t) (message : JsString.t)
    : Prop :=
  Exists (fun k => ci_substring k message) keywords.

(** The four variables a fight accounts in. *)
Definition fightVars (s : GameState)
    : Z * JsMap.t Z * list HitEntry * Z :=
  (bossHP s, userHits s, chronological s, totalHits s).

(** The entry [{username, message, timestamp, delta}]. *)
Definition entryOf (username : string) (message : JsString.t)
    (timestamp delta : Z) : HitEntry :=
  {| he_username := username; he_message := message;
     he_timestamp := timestamp; he_delta := delta |}.

(** The state after a heal as the spec words it: the entry appended and
    [bossHP = min(maxHP, bossHP + 1)], nothing else touched. *)
Definition healed (s : GameState) (entry : HitEntry) : GameState :=
  set_bossHP (Z.min INITIAL_HP (bossHP s + 1))
    (set_chronological (chronological s ++ [entry]) s).

(** The state after a damage as the spec words it: [totalHits += 1],
    [userHits[user] += 1], [lastHitter = user], the entry appended and
    [bossHP = max(0, bossHP - 1)]. *)
Definition damaged (s : GameState) (user : string) (entry : HitEntry) : GameState :=
  set_bossHP (Z.max 0 (bossHP s - 1))
    (set_chronological (chronological s ++ [entry])
       (set_lastHitter (Some user)
          (set_userHits
             (JsMap.set user (or_default (JsMap.get user (userHits s)) 0 + 1)
                (userHits s))
             (set_totalHits (totalHits s + 1) s)))).

(** The broadcast that ends [handleChatMessage]. *)
Definition updateOf (s : GameState) (entry : HitEntry) (now : Z) : Effect :=
  io_emit (update (bossHP s) INITIAL_HP (getTop s 3) (lastHitter s) (Some entry)
             (Z.max 0 (or_default (fightEndTime s) 0 - now))).

(** *** Settlement, as the spec words it *)

(** The payout of a winning bet of [amount] lamports, in integers:
    [amount + floor((L - floor(L * feePct / 100)) * amount / W)]. *)
Definition specPayout (L W feePct amount : Z) : Z :=
  amount + ((L - (L * feePct) / 100) * amount) / W.

(** The share [floor((L - floor(L * feePct / 100)) * amount / W)] with the
    operations of numbers, each of them rounded. *)
Definition numberShare (L W feePct amount : Z) : Double.t :=
  Double.floor
    (Double.div
       (Double.mul
          (Double.sub (Double.of_Z L)
             (Double.floor
                (Double.div (Double.mul (Double.of_Z L) (Double.of_Z feePct))
                   (Double.of_Z 100))))
          (Double.of_Z amount))
       (Double.of_Z W)).

(** The ledger call issued for an account: [claimPayout] for a fetched bet on
    the winning side whose amount is below 2^53, nothing otherwise. *)
Definition payoutCallFor (winningPrediction : string) (a : BetAccount)
    : list Effect :=
  match ba_fetch a with
  | Some betData =>
      if (Z.abs (bd_amount betData) <? 2 ^ 53) &&
         String.eqb (bd_prediction betData) winningPrediction
      then [rpc (rpc_claimPayout (ba_pubkey a) (bd_bettor betData))]
      else []
  | None => []
  end.

(** The row recorded for an account: one for such a bet when its
    [claimPayout] succeeded, with the amounts in SOL. *)
Definition payoutRowFor (winningPrediction : string) (L W feePct : Z)
    (a : BetAccount) : list PayoutResult :=
  match ba_fetch a, ba_claim a with
  | Some betData, Some tx =>
      if (Z.abs (bd_amount betData) <? 2 ^ 53) &&
         String.eqb (bd_prediction betData) winningPrediction
      then [{| pr_username := bd_username betData;
               pr_wallet := bd_bettor betData;
               pr_betAmount := in_SOL (Double.of_Z (bd_amount betData));
               pr_prizeShare :=
                 in_SOL (numberShare L W feePct (bd_amount betData));
               pr_totalPayout :=
                 in_SOL (Double.add (Double.of_Z (bd_amount betData))
                           (numberShare L W feePct (bd_amount betData)));
               pr_signature := tx |}]
      else []
  | _, _ => []
  end.

(** *** Retries of [startFightPhase] *)

Definition is_startFightPhase (e : Effect) : bool :=
  match e with rpc (rpc_startFightPhase _) => true | _ => false end.

Definition is_retry_timer (e : Effect) : bool :=
  match e with setTimeout (cb_startFightingPhase _) _ => true | _ => false end.

(** Ledger calls of [startFightPhase] among the effects. *)
Definition attempts (eff : list Effect) : nat :=
  List.length (filter is_startFightPhase eff).

(** Retry timers among the effects. *)
Definition retries (eff : list Effect) : nat :=
  List.length (filter is_retry_timer eff).

Definition failedToStart : Effect :=
  io_emit (phase_change IDLE
    "Failed to start fight phase. Please try starting a new betting round.").

(** *** A round up to the fight

    The admin starts the betting phase at [now], the ledger accepts the round,
    and the fight starts when the betting timer has run. *)

Definition adminCredentials : AdminData :=
  {| adminKey := Some ADMIN_SECRET; walletAddress := ADMIN_WALLET |}.

Definition bettingRound (now : Z) : GameState :=
  fst (startBettingPhase_resume
         (fst (admin_start_betting initialState (Some adminCredentials) now))
         true now).

Definition fightingRound (now : Z) : GameState :=
  fst (startFightingPhase_finish
         (fst (startFightingPhase_started (bettingRound now)
                 (now + BETTING_DURATION * 1000)))).

(** The fight after the chat messages of [msgs], oldest first, each a pair
    of a user and a text, all received at time [now]. *)
Definition afterMessages (s : GameState) (msgs : list (string * JsString.t))
    (now : Z) : GameState :=
  fold_left (fun s m => fst (onChatMessage s (fst m) (snd m) now now)) msgs s.

(** Effects that start the fight-end flow: cancelling a timer or calling
    [endFight] on the ledger. *)
Definition startsFightEnd (eff : list Effect) : bool :=
  existsb
    (fun e => match e with
              | rpc (rpc_endFight _) | clearTimeout _ => true
              | _ => false
              end) eff.

(** *** Further quantities of the fight *)

(** The fight variables with [lastHitter]. *)
Definition fightView (s : GameState)
    : Z * JsMap.t Z * list HitEntry * Z * option string :=
  (bossHP s, userHits s, chronological s, totalHits s, lastHitter s).

(** [userHits.get(user) || 0] *)
Definition hitsOf (user : string) (m : JsMap.t Z) : Z :=
  or_default (JsMap.get user m) 0.

(** The damage entries of [user] in the log. *)
Definition countUserDamage (user : string) (l : list HitEntry) : Z :=
  Z.of_nat (List.length
    (filter (fun e => String.eqb (he_username e) user && (he_delta e =? -1)) l)).

(** The user of the latest damage entry of the log. *)
Definition lastDamager (l : list HitEntry) : option string :=
  option_map he_username (find (fun e => he_delta e =? -1) (rev l)).

(** The users of a leaderboard, in order. *)
Definition usersOf (rows : list Score) : list string := map username rows.

(** The rows with [h] hits. *)
Definition withHits (h : Z) (rows : list Score) : list Score :=
  filter (fun r => hits r =? h) rows.

(** The addresses of a round. *)
Definition roundAddresses (s : GameState) : Prop :=
  (currentRoundId s = 0 /\ bettingRoundPDA s = None /\ escrowPDA s = None) \/
  (bettingRoundPDA s = Some (getBettingRoundPDA (currentRoundId s)) /\
   escrowPDA s = Some (getEscrowPDA (currentRoundId s))).

(** The end times are set in their phases. *)
Definition endTimesSet (s : GameState) : Prop :=
  (gamePhase s = BETTING -> bettingEndTime s <> None) /\
  (gamePhase s = FIGHTING -> fightEndTime s <> None).

(** *** [loadBettingData] with every read answered

    The stretches of [loadBettingData] one after the other, with no other
    handler run while it awaits: the round account is read, then the bets of
    [bets] one after the other. *)
Definition loadBettingData_run (s : GameState) (account : BettingRoundAccount)
    (bets : list BetData) : GameState :=
  fold_left loadBettingData_bet bets
    (loadBettingData_clear (fst (loadBettingData_totals s account))).

(** Bet notifications, each with the time of its handling, handled one
    after the other. *)
Definition betNotifications (s : GameState) (ns : list (BetNotification * Z))
    : GameState :=
  fold_left (fun s n => fst (betNotification s (fst n) (snd n))) ns s.

(** [loadBettingData] with every read answered and the bet notifications
    handled while it awaits: those of [listing] while the bet accounts are
    listed and, before the answer of the read of each bet, those paired with
    the bet. *)
Definition loadBettingData_among (s : GameState) (account : BettingRoundAccount)
    (listing : list (BetNotification * Z))
    (reads : list (list (BetNotification * Z) * BetData)) : GameState :=
  fold_left
    (fun s r => loadBettingData_bet (betNotifications s (fst r)) (snd r))
    reads
    (loadBettingData_clear
       (betNotifications (fst (loadBettingData_totals s account)) listing)).

(** A bet whose amount and timestamp [toNumber] hands over. *)
Definition readable (betData : BetData) : bool :=
  (Z.abs (bd_amount betData) <? 2 ^ 53) &&
  (Z.abs (bd_timestamp betData) <? 2 ^ 53).

(** The entry [loadBettingData] stores for a bet. *)
Definition betInfoOf (betData : BetData) : BetInfo :=
  {| bet_username := Some (bd_username betData);
     bet_amount := Double.of_Z (bd_amount betData);
     bet_prediction := Some (bd_prediction betData);
     bet_signature := None;
     bet_timestamp := bd_timestamp betData |}.

(** The entry a notification stores. *)
Definition notifiedBet (body : BetNotification) (now : Z) : BetInfo :=
  {| bet_username := bn_username body;
     bet_amount := Double.mul (bn_amount body) (Double.of_Z LAMPORTS_PER_SOL);
     bet_prediction := bn_prediction body;
     bet_signature := bn_signature body;
     bet_timestamp := now |}.

(** A total with the amounts of the notifications of its side added, in
    order; [death] tells the side. *)
Definition addNotified (death : bool) (total : Double.t)
    (ns : list (BetNotification * Z)) : Double.t :=
  fold_left
    (fun t n =>
       if Bool.eqb (option_string_eqb (bn_prediction (fst n)) (Some "death")) death
       then Double.add t
              (Double.mul (bn_amount (fst n)) (Double.of_Z LAMPORTS_PER_SOL))
       else t)
    ns total.

(** The writes to [onChainBets] of notifications, and those of the reads of
    [loadBettingData] with the notifications handled in between. *)
Definition notifiedWrites (ns : list (BetNotification * Z))
    : list (string * BetInfo) :=
  map (fun n => (bn_walletAddress (fst n), notifiedBet (fst n) (snd n))) ns.

Definition readWrites (reads : list (list (BetNotification * Z) * BetData))
    : list (string * BetInfo) :=
  flat_map
    (fun r => notifiedWrites (fst r) ++
              (if readable (snd r)
               then [(bd_bettor (snd r), betInfoOf (snd r))] else []))
    reads.

(** [onChainBets] after the writes of a list, in order. *)
Definition written (writes : list (string * BetInfo)) (m : JsMap.t BetInfo)
    : JsMap.t BetInfo :=
  fold_left (fun m e => JsMap.set (fst e) (snd e) m) writes m.

(** The value last written for a wallet. *)
Definition lastWrite (wallet : string) (writes : list (string * BetInfo))
    : option BetInfo :=
  option_map snd (find (fun e => String.eqb (fst e) wallet) (rev writes)).

Definition sumZ (l : list Z) : Z := fold_right Z.add 0 l.

(** *** The snapshot sent to a joining overlay client *)

(** [arr.slice(-n)] *)
Definition slice_last {A : Type} (n : nat) (l : list A) : list A :=
  skipn (List.length l - n) l.

Record StateSnapshot := {
  snap_gamePhase : GamePhase;
  snap_currentRoundId : Z;
  snap_bossHP : Z;
  snap_maxHP : Z;
  snap_top : list Score;
  snap_lastHitter : option string;
  snap_chronological : list HitEntry;
  snap_totalDeathBets : Double.t;
  snap_totalSurvivalBets : Double.t;
  snap_totalBets : nat;
  snap_timeRemaining : Z;
  snap_fightTimeRemaining : Z;
  snap_connected : bool
}.

(** The payload of [socket.emit('state', ...)] in [io.on('connection')];
    [connected] is [pumpSocket?.readyState === WebSocket.OPEN || false]. *)
Definition stateSnapshot (s : GameState) (now : Z) (connected : bool)
    : StateSnapshot :=
  {| snap_gamePhase := gamePhase s;
     snap_currentRoundId := currentRoundId s;
     snap_bossHP := bossHP s;
     snap_maxHP := INITIAL_HP;
     snap_top := getTop s 3;
     snap_lastHitter := lastHitter s;
     snap_chronological := slice_last 10 (chronological s);
     snap_totalDeathBets := in_SOL (totalDeathBets s);
     snap_totalSurvivalBets := in_SOL (totalSurvivalBets s);
     snap_totalBets := JsMap.size (onChainBets s);
     snap_timeRemaining :=
       if phase_eqb (gamePhase s) BETTING
       then Z.max 0 (or_default (bettingEndTime s) 0 - now) else 0;
     snap_fightTimeRemaining :=
       if phase_eqb (gamePhase s) FIGHTING
       then Z.max 0 (or_default (fightEndTime s) 0 - now) else 0;
     snap_connected := connected |}.

(** *** The connection to the chat

    The variables [isConnecting], [isConnected], [reconnectAttempts] and
    [pumpSocket]; a client is named by its number in the order of creation.
    The events of a client are taken as they come, one handler at a time. *)

Record ChatLink := {
  isConnecting : bool;
  isConnected : bool;
  reconnectAttempts : Z;
  pumpSocket : option nat
}.

Definition maxReconnectAttempts : Z := 10.
Definition reconnectInterval : Z := 5000.

Inductive LinkEffect :=
| client_disconnect (client : nat)
| client_new (client : nat) (roomId : string)
| client_connect (client : nat)
| connection_status (connected : bool)
| setTimeout_connect (ms : Z).

Definition initialLink : ChatLink :=
  {| isConnecting := false; isConnected := false;
     reconnectAttempts := 0; pumpSocket := None |}.

Definition connectToPumpFun (COIN_ADDRESS : string) (l : ChatLink)
    : ChatLink * list LinkEffect :=
  if negb (truthy COIN_ADDRESS) then (l, [])
  else if isConnecting l || isConnected l then (l, [])
  else
    let client := match pumpSocket l with Some c => S c | None => O end in
    ({| isConnecting := true; isConnected := isConnected l;
        reconnectAttempts := reconnectAttempts l; pumpSocket := Some client |},
     match pumpSocket l with Some c => [client_disconnect c] | None => [] end ++
     [client_new client COIN_ADDRESS; client_connect client]).

(** [pumpSocket.on('connected', ...)] *)
Definition onConnected (l : ChatLink) : ChatLink * list LinkEffect :=
  ({| isConnecting := false; isConnected := true;
      reconnectAttempts := 0; pumpSocket := pumpSocket l |},
   [connection_status true]).

(** [pumpSocket.on('error', ...)] *)
Definition onError (l : ChatLink) : ChatLink * list LinkEffect :=
  ({| isConnecting := false; isConnected := false;
      reconnectAttempts := reconnectAttempts l; pumpSocket := pumpSocket l |},
   [connection_status false]).

(** [pumpSocket.on('disconnected', ...)] *)
Definition onDisconnected (l : ChatLink) : ChatLink * list LinkEffect :=
  if reconnectAttempts l <? maxReconnectAttempts then
    ({| isConnecting := false; isConnected := false;
        reconnectAttempts := reconnectAttempts l + 1;
        pumpSocket := pumpSocket l |},
     [connection_status false; setTimeout_connect reconnectInterval])
  else
    ({| isConnecting := false; isConnected := false;
        reconnectAttempts := reconnectAttempts l; pumpSocket := pumpSocket l |},
     [connection_status false]).

Inductive LinkEvent :=
| ev_connect        (* the start-up call or a reconnect timer *)
| ev_connected
| ev_error
| ev_disconnected.

Definition linkStep (COIN_ADDRESS : string) (l : ChatLink) (e : LinkEvent)
    : ChatLink * list LinkEffect :=
  match e with
  | ev_connect => connectToPumpFun COIN_ADDRESS l
  | ev_connected => onConnected l
  | ev_error => onError l
  | ev_disconnected => onDisconnected l
  end.

(** The link and the effects, oldest first, after the events of [events]. *)
Fixpoint linkRun (COIN_ADDRESS : string) (l : ChatLink) (events : list LinkEvent)
    : ChatLink * list LinkEffect :=
  match events with
  | [] => (l, [])
  | e :: later =>
      let (l1, eff1) := linkStep COIN_ADDRESS l e in
      let (l2, eff2) := linkRun COIN_ADDRESS l1 later in
      (l2, eff1 ++ eff2)
  end.

Definition is_reconnect (e : LinkEffect) : bool :=
  match e with setTimeout_connect _ => true | _ => false end.

Definition is_new_client (e : LinkEffect) : bool :=
  match e with client_new _ _ => true | _ => false end.

(** Reconnect timers among the effects. *)
Definition reconnects (eff : list LinkEffect) : nat :=
  List.length (filter is_reconnect eff).

Definition is_ev_connected (e : LinkEvent) : bool :=
  match e with ev_connected => true | _ => false end.

(** *** Admin credentials *)

(** What [admin:reset] accepts: a key and a wallet, both non-empty, equal to
    the configured ones. *)
Definition resetAuthorized (data : option AdminData) : Prop :=
  exists key wallet,
    data = Some {| adminKey := Some key; walletAddress := Some wallet |} /\
    key <> "" /\ wallet <> "" /\
    key = ADMIN_SECRET /\ ADMIN_WALLET = Some wallet.

(** * Proofs *)

(** ** Strings *)

Lemma startsWith_app (text k : JsString.t) :
  JsString.startsWith text k = true <-> exists post, text = k ++ post.
Proof.
  revert text; induction k as [|a k IH]; intros text; simpl.
  - split; [intros _; now exists text | reflexivity].
  - destruct text as [|b text].
    + split; [discriminate | intros [post H]; discriminate].
    + rewrite andb_true_iff, Z.eqb_eq, IH. split.
      * intros [-> [post ->]]. now exists post.
      * intros [post H]. injection H as -> ->. split; [reflexivity | now exists post].
Qed.

Lemma includes_app (text k : JsString.t) :
  JsString.includes text k = true <->
  exists pre post, text = pre ++ k ++ post.
Proof.
  induction text as [|c text IH]; simpl.
  - rewrite orb_false_r, startsWith_app. split.
    + intros [post H]. now exists [], post.
    + intros [pre [post H]]. destruct pre as [|p pre]; [now exists post | discriminate].
  - rewrite orb_true_iff, IH. split.
    + intros [H | [pre [post ->]]].
      * apply startsWith_app in H as [post H]. now exists [], post.
      * now exists (c :: pre), post.
    + intros [pre [post H]]. destruct pre as [|p pre].
      * left. apply startsWith_app. now exists post.
      * right. injection H as -> ->. now exists pre, post.
Qed.

(** The code's test is the containment of the upper-case forms. *)
Lemma includes_ci_substring (m k : JsString.t) :
  JsString.includes (JsString.toUpperCase m) (JsString.toUpperCase k) = true <->
  ci_substring k m.
Proof. apply includes_app. Qed.

(** *** Strings of the ASCII range *)

Lemma in_ascii_range (c : Z) :
  0 <= c < 0x80 -> In (Z.to_nat c) (seq 0 128).
Proof. intros H. apply in_seq. lia. Qed.

Lemma upperCodePoint_ascii (c : Z) :
  0 <= c < 0x80 -> JsString.upperCodePoint c = [ascii_upper c].
Proof.
  intros H.
  assert (Hall : forallb
            (fun n => match JsString.upperCodePoint (Z.of_nat n) with
                      | [u] => u =? ascii_upper (Z.of_nat n)
                      | _ => false
                      end) (seq 0 128) = true) by (vm_compute; reflexivity).
  rewrite forallb_forall in Hall.
  specialize (Hall _ (in_ascii_range c H)).
  rewrite Z2Nat.id in Hall by lia.
  destruct (JsString.upperCodePoint c) as [|u [|v r]]; try discriminate.
  apply Z.eqb_eq in Hall. now subst u.
Qed.

Lemma codePoints_cons (a : Z) (r : JsString.t) :
  JsString.is_high_surrogate a = false ->
  JsString.codePoints (a :: r) = a :: JsString.codePoints r.
Proof.
  intros Ha. cbn [JsString.codePoints].
  destruct r as [|b r']; [reflexivity |]. now rewrite Ha.
Qed.

Lemma ascii_not_high (c : Z) :
  0 <= c < 0x80 -> JsString.is_high_surrogate c = false.
Proof.
  intros H. unfold JsString.is_high_surrogate.
  apply andb_false_iff. left. apply Z.leb_gt. lia.
Qed.

Lemma ascii_upper_range (c : Z) : 0 <= c < 0x80 -> 0 <= ascii_upper c < 0x80.
Proof.
  intros H. unfold ascii_upper.
  destruct (Z.leb_spec 0x61 c), (Z.leb_spec c 0x7A); cbn [andb]; lia.
Qed.

Lemma codeUnits_bmp (c : Z) : c < 0x10000 -> JsString.codeUnits c = [c].
Proof.
  intros H. unfold JsString.codeUnits.
  destruct (Z.ltb_spec c 0x10000); [reflexivity | lia].
Qed.

(** On a string of the ASCII range [toUpperCase] maps the letters a-z to A-Z
    and leaves every other code unit alone. *)
Lemma toUpperCase_ascii (s : JsString.t) :
  is_ascii s -> JsString.toUpperCase s = map ascii_upper s.
Proof.
  unfold JsString.toUpperCase.
  induction 1 as [|c r Hc Hr IH]; [reflexivity |].
  rewrite codePoints_cons by now apply ascii_not_high.
  cbn [flat_map map]. rewrite upperCodePoint_ascii by assumption.
  cbn [flat_map app]. rewrite IH.
  rewrite codeUnits_bmp by (pose proof (ascii_upper_range c Hc); lia).
  reflexivity.
Qed.

Lemma same_letter_ascii_upper (a b : Z) :
  0 <= a < 0x80 -> 0 <= b < 0x80 ->
  same_letter a b <-> ascii_upper a = ascii_upper b.
Proof.
  intros Ha Hb. unfold same_letter, ascii_upper.
  destruct (Z.leb_spec 0x61 a), (Z.leb_spec a 0x7A),
           (Z.leb_spec 0x61 b), (Z.leb_spec b 0x7A); cbn [andb]; lia.
Qed.

Lemma eq_ignore_case_ascii (s k : JsString.t) :
  is_ascii s -> is_ascii k ->
  eq_ignore_case s k <-> map ascii_upper s = map ascii_upper k.
Proof.
  intros Hs. revert k. induction Hs as [|a s Ha Hs IH]; intros k Hk.
  - split.
    + intros H. inversion H. reflexivity.
    + destruct k; [constructor | discriminate].
  - destruct Hk as [|b k Hb Hk].
    + split; [intros H; inversion H | discriminate].
    + cbn [map]. split.
      * intros H. inversion H; subst. f_equal.
        -- now apply same_letter_ascii_upper.
        -- now apply IH.
      * intros H. injection H as Hab H. constructor.
        -- now apply same_letter_ascii_upper.
        -- now apply IH.
Qed.

Lemma is_ascii_app (a b : JsString.t) :
  is_ascii (a ++ b) <-> is_ascii a /\ is_ascii b.
Proof. apply Forall_app. Qed.

(** For strings of the ASCII range the containment of the upper-case forms
    says that a piece of the message spells the keyword up to case. *)
Lemma ci_substring_ascii (k m : JsString.t) :
  is_ascii k -> is_ascii m -> ci_substring k m <-> spells_within k m.
Proof.
  intros Hk Hm. unfold ci_substring, spells_within.
  rewrite !toUpperCase_ascii by assumption. split.
  - intros [pre [post H]].
    apply map_eq_app in H as [m1 [m2 [-> [<- H]]]].
    apply map_eq_app in H as [m3 [m4 [-> [H <-]]]].
    exists m1, m3, m4. split; [reflexivity |].
    apply is_ascii_app in Hm as [_ Hm]. apply is_ascii_app in Hm as [Hm _].
    now apply eq_ignore_case_ascii.
  - intros [pre [piece [post [-> H]]]].
    apply is_ascii_app in Hm as [_ Hm]. apply is_ascii_app in Hm as [Hm _].
    apply eq_ignore_case_ascii in H; [| assumption | assumption].
    exists (map ascii_upper pre), (map ascii_upper post).
    now rewrite !map_app, H.
Qed.

(** *** Case of the letters and code points *)

Lemma same_letter_high (a b : Z) :
  same_letter a b -> JsString.is_high_surrogate a = JsString.is_high_surrogate b.
Proof.
  unfold same_letter, JsString.is_high_surrogate. intros H.
  destruct (Z.leb_spec 0xD800 a), (Z.leb_spec a 0xDBFF),
           (Z.leb_spec 0xD800 b), (Z.leb_spec b 0xDBFF); cbn [andb];
    try reflexivity; lia.
Qed.

Lemma same_letter_low (a b : Z) :
  same_letter a b -> JsString.is_low_surrogate a = JsString.is_low_surrogate b.
Proof.
  unfold same_letter, JsString.is_low_surrogate. intros H.
  destruct (Z.leb_spec 0xDC00 a), (Z.leb_spec a 0xDFFF),
           (Z.leb_spec 0xDC00 b), (Z.leb_spec b 0xDFFF); cbn [andb];
    try reflexivity; lia.
Qed.

Lemma same_letter_surrogate (a b : Z) :
  same_letter a b ->
  JsString.is_high_surrogate a || JsString.is_low_surrogate a = true -> a = b.
Proof.
  unfold same_letter, JsString.is_high_surrogate, JsString.is_low_surrogate.
  intros H Hs. apply orb_true_iff in Hs.
  rewrite !andb_true_iff, !Z.leb_le in Hs. lia.
Qed.

Lemma same_letter_upperCodePoint (a b : Z) :
  same_letter a b -> JsString.upperCodePoint a = JsString.upperCodePoint b.
Proof.
  intros [-> | [[Ha ->] | [Ha ->]]]; [reflexivity | |];
    rewrite !upperCodePoint_ascii by lia; unfold ascii_upper;
    repeat match goal with
           | |- context [?x <=? ?y] => destruct (Z.leb_spec x y)
           end; cbn [andb]; f_equal; lia.
Qed.

Lemma codePoints_pair (a b : Z) (r : JsString.t) :
  JsString.codePoints (a :: b :: r) =
  if JsString.is_high_surrogate a && JsString.is_low_surrogate b
  then (0x10000 + (a - 0xD800) * 0x400 + (b - 0xDC00)) :: JsString.codePoints r
  else a :: JsString.codePoints (b :: r).
Proof. reflexivity. Qed.

Lemma eq_ignore_case_codePoints (n : nat) (s k : JsString.t) :
  (List.length s <= n)%nat -> eq_ignore_case s k ->
  flat_map JsString.upperCodePoint (JsString.codePoints s) =
  flat_map JsString.upperCodePoint (JsString.codePoints k).
Proof.
  revert s k. induction n as [|n IH]; intros s k Hlen H.
  - destruct H; [reflexivity | simpl in Hlen; lia].
  - destruct H as [|a a' r r' Ha Hr]; [reflexivity |].
    cbn [List.length] in Hlen.
    destruct Hr as [|b b' r2 r2' Hb Hr2].
    + cbn [JsString.codePoints flat_map]. now rewrite (same_letter_upperCodePoint a a').
    + rewrite !codePoints_pair.
      rewrite <- (same_letter_high a a' Ha), <- (same_letter_low b b' Hb).
      destruct (JsString.is_high_surrogate a && JsString.is_low_surrogate b) eqn:E.
      * apply andb_true_iff in E as [Eh El].
        assert (a = a') by (apply same_letter_surrogate; [assumption | now rewrite Eh]).
        assert (b = b')
          by (apply same_letter_surrogate; [assumption | rewrite El; apply orb_true_r]).
        subst a' b'. cbn [flat_map]. f_equal.
        apply IH; [cbn [List.length] in Hlen; lia | assumption].
      * cbn [flat_map]. rewrite (same_letter_upperCodePoint a a' Ha). f_equal.
        apply IH; [cbn [List.length] in *; lia |].
        constructor; assumption.
Qed.

(** Strings that differ in the case of ASCII letters only have the same
    upper-case form. *)
Lemma eq_ignore_case_toUpperCase (s k : JsString.t) :
  eq_ignore_case s k -> JsString.toUpperCase s = JsString.toUpperCase k.
Proof.
  intros H. unfold JsString.toUpperCase.
  now rewrite (eq_ignore_case_codePoints (List.length s) s k (Nat.le_refl _) H).
Qed.

Lemma parseKeywords_truthy (s : JsString.t) :
  Forall (fun k => JsString.truthy k = true) (parseKeywords s).
Proof.
  unfold parseKeywords. apply Forall_forall. intros k Hk.
  now apply filter_In in Hk.
Qed.

Lemma hasKeyword_anyKeywordIn (keywords : list JsString.t) (message : JsString.t) :
  Forall (fun k => JsString.truthy k = true) keywords ->
  hasKeyword keywords (JsString.toUpperCase message) = true <->
  anyKeywordIn keywords message.
Proof.
  intros Hk. unfold hasKeyword, anyKeywordIn.
  rewrite existsb_exists, Exists_exists. split.
  - intros [k [Hin H]]. apply andb_true_iff in H as [_ H].
    exists k. split; [assumption | now apply includes_ci_substring].
  - intros [k [Hin H]]. exists k. split; [assumption |].
    rewrite Forall_forall in Hk. rewrite (Hk _ Hin). simpl.
    now apply includes_ci_substring.
Qed.

(** ** The keyword interpreter *)

Lemma hasHit_spec (message : JsString.t) :
  hasKeyword TRIGGER_KEYWORDS (JsString.toUpperCase message) = true <->
  anyKeywordIn TRIGGER_KEYWORDS message.
Proof. apply hasKeyword_anyKeywordIn, parseKeywords_truthy. Qed.

Lemma hasHeal_spec (message : JsString.t) :
  hasKeyword HEAL_KEYWORDS (JsString.toUpperCase message) = true <->
  anyKeywordIn HEAL_KEYWORDS message.
Proof. apply hasKeyword_anyKeywordIn, parseKeywords_truthy. Qed.

Lemma messageDelta_cases (message : JsString.t) :
  (anyKeywordIn TRIGGER_KEYWORDS message /\ ~ anyKeywordIn HEAL_KEYWORDS message /\
   messageDelta message = -1) \/
  (anyKeywordIn HEAL_KEYWORDS message /\ ~ anyKeywordIn TRIGGER_KEYWORDS message /\
   messageDelta message = 1) \/
  ((anyKeywordIn TRIGGER_KEYWORDS message <-> anyKeywordIn HEAL_KEYWORDS message) /\
   messageDelta message = 0).
Proof.
  unfold messageDelta.
  pose proof (hasHit_spec message) as Hhit.
  pose proof (hasHeal_spec message) as Hheal.
  destruct (hasKeyword TRIGGER_KEYWORDS _), (hasKeyword HEAL_KEYWORDS _); simpl.
  - right; right. split; [|reflexivity].
    split; intros _; [now apply Hheal | now apply Hhit].
  - left. repeat split; [now apply Hhit |].
    intros H; apply Hheal in H; discriminate.
  - right; left. repeat split; [now apply Hheal |].
    intros H; apply Hhit in H; discriminate.
  - right; right. split; [|reflexivity].
    split; intros H; [apply Hhit in H | apply Hheal in H]; discriminate.
Qed.

Lemma handleChatMessage_ignored (s : GameState) (username : string)
    (message : JsString.t) (timestamp now : Z) :
  messageDelta message = 0 ->
  handleChatMessage s username message timestamp now = (s, []).
Proof.
  intros H. unfold handleChatMessage. rewrite H. simpl.
  now destruct (negb _).
Qed.

Lemma anyKeywordIn_ascii (keywords : list JsString.t) (message : JsString.t) :
  Forall is_ascii keywords -> is_ascii message ->
  anyKeywordIn keywords message <->
  Exists (fun k => spells_within k message) keywords.
Proof.
  intros Hk Hm. unfold anyKeywordIn. rewrite !Exists_exists.
  rewrite Forall_forall in Hk.
  split; intros [k [Hin H]]; exists k; (split; [assumption |]);
    now apply (ci_substring_ascii k message (Hk k Hin) Hm).
Qed.

(** C2.  With hasHit = "some trigger keyword is a case-insensitive substring
    of the message" and hasHeal likewise for the heal keywords: a message
    with hasHit and not hasHeal has delta -1 (one damage, whatever the number
    of occurrences), a message with hasHeal and not hasHit has delta +1 (one
    heal), and in every other case the delta is 0 and [handleChatMessage]
    returns the state as it was, with no effect performed.  Case-insensitive
    is read on the upper-case forms (that of the message contains that of the
    keyword); for keywords and a message of the ASCII range this says that a
    piece of the message spells the keyword up to the case of its letters. *)
Theorem C2_keyword_interpreter (message : JsString.t) :
  (anyKeywordIn TRIGGER_KEYWORDS message /\ ~ anyKeywordIn HEAL_KEYWORDS message ->
   messageDelta message = -1 /\ Z.abs (messageDelta message) = 1) /\
  (anyKeywordIn HEAL_KEYWORDS message /\ ~ anyKeywordIn TRIGGER_KEYWORDS message ->
   messageDelta message = 1 /\ Z.abs (messageDelta message) = 1) /\
  (~ (anyKeywordIn TRIGGER_KEYWORDS message /\ ~ anyKeywordIn HEAL_KEYWORDS message) ->
   ~ (anyKeywordIn HEAL_KEYWORDS message /\ ~ anyKeywordIn TRIGGER_KEYWORDS message) ->
   messageDelta message = 0 /\
   forall s username timestamp now,
     handleChatMessage s username message timestamp now = (s, [])) /\
  (forall k m, is_ascii k -> is_ascii m ->
     (ci_substring k m <-> spells_within k m)) /\
  (forall keywords, Forall is_ascii keywords -> is_ascii message ->
     (anyKeywordIn keywords message <->
      Exists (fun k => spells_within k message) keywords)).
Proof.
  split; [| split; [| split; [| split]]];
    [| | | apply ci_substring_ascii
     | intros keywords; apply anyKeywordIn_ascii];
    destruct (messageDelta_cases message)
      as [[Hhit [Hheal Hd]] | [[Hheal [Hhit Hd]] | [Hiff Hd]]];
    try (intros; split; [rewrite Hd; reflexivity | rewrite Hd; reflexivity]);
    try tauto.
  intros _ _. split; [assumption |].
  intros. now apply handleChatMessage_ignored.
Qed.

(** ** Sorting and the leaderboard *)

Section SortFacts.
Context {A : Type} (cmp : A -> A -> Z).

Lemma sort_insert_perm (x : A) (l : list A) :
  Permutation (sort_insert cmp x l) (x :: l).
Proof.
  induction l as [|y r IH]; simpl; [reflexivity |].
  destruct (cmp x y <=? 0); [reflexivity |].
  rewrite IH. apply perm_swap.
Qed.

Lemma array_sort_perm (l : list A) : Permutation (array_sort cmp l) l.
Proof.
  induction l as [|x r IH]; simpl; [reflexivity |].
  rewrite sort_insert_perm. now constructor.
Qed.

End SortFacts.

Lemma sort_insert_sorted (x : Score) (l : list Score) :
  StronglySorted hits_ge l -> StronglySorted hits_ge (sort_insert byHits x l).
Proof.
  induction 1 as [|y r Hr IH Hy]; simpl.
  - repeat constructor.
  - unfold byHits at 1. destruct (Z.leb_spec (hits y - hits x) 0) as [Hle | Hgt].
    + constructor; [now constructor |].
      constructor; [unfold hits_ge; lia |].
      eapply Forall_impl; [| exact Hy]. unfold hits_ge. intros; lia.
    + constructor; [assumption |].
      eapply Permutation_Forall; [symmetry; apply sort_insert_perm |].
      constructor; [unfold hits_ge; lia | assumption].
Qed.

Lemma array_sort_sorted (l : list Score) :
  StronglySorted hits_ge (array_sort byHits l).
Proof.
  induction l as [|x r IH]; simpl; [constructor | now apply sort_insert_sorted].
Qed.

Lemma In_firstn {A : Type} (n : nat) (l : list A) (y : A) :
  In y (firstn n l) -> In y l.
Proof.
  intros H. rewrite <- (firstn_skipn n l). apply in_or_app. now left.
Qed.

Lemma StronglySorted_firstn {A : Type} (R : A -> A -> Prop) (n : nat) (l : list A) :
  StronglySorted R l -> StronglySorted R (firstn n l).
Proof.
  intros H; revert n; induction H as [|x r Hr IH Hx]; intros [|n]; simpl;
    try constructor; auto.
  apply Forall_forall. intros y Hy. rewrite Forall_forall in Hx.
  apply Hx. eapply In_firstn; eassumption.
Qed.

(** C10.  [getTop(n)] returns at most [n] rows, in non-increasing order of
    hits; every row is an entry of [userHits]; and the first row, when there
    is one, has at least as many hits as every user, which is what
    [buildResults] reports as [topDamage]. *)
Theorem C10_getTop_sorted (s : GameState) (n : nat) :
  (List.length (getTop s n) <= n)%nat /\
  StronglySorted hits_ge (getTop s n) /\
  (forall row, In row (getTop s n) ->
     In (username row, hits row) (JsMap.entries (userHits s))) /\
  (forall first rest, getTop s n = first :: rest ->
     forall user h, In (user, h) (JsMap.entries (userHits s)) -> h <= hits first).
Proof.
  unfold getTop, slice0.
  set (arr := map scoreOf (JsMap.entries (userHits s))).
  pose proof (array_sort_sorted arr) as Hsorted.
  pose proof (array_sort_perm byHits arr) as Hperm.
  repeat split.
  - apply firstn_le_length.
  - now apply StronglySorted_firstn.
  - intros row Hrow. apply In_firstn in Hrow.
    apply (Permutation_in _ Hperm) in Hrow.
    apply in_map_iff in Hrow as [[u h] [<- Hin]]. exact Hin.
  - intros first rest Htop user h Hin.
    assert (Hmem : In (scoreOf (user, h)) (array_sort byHits arr)).
    { apply (Permutation_in _ (Permutation_sym Hperm)).
      unfold arr. now apply in_map. }
    destruct (array_sort byHits arr) as [|x r] eqn:E.
    + destruct Hmem.
    + destruct n as [|n]; [discriminate |].
      simpl in Htop. injection Htop as <- _.
      apply StronglySorted_inv in Hsorted as [_ Hall].
      destruct Hmem as [Hx | Hmem]; [subst x; simpl; lia |].
      rewrite Forall_forall in Hall. apply (Hall _ Hmem).
Qed.

(** ** Hit accounting *)

Lemma sumHits_set (k : string) (d : Z) (m : JsMap.t Z) :
  sumHits (JsMap.set k (or_default (JsMap.get k m) 0 + d) m) = sumHits m + d.
Proof.
  unfold sumHits, JsMap.values.
  induction m as [|[k' v'] r IH]; simpl; [lia |].
  destruct (String.eqb k k'); simpl; [lia |].
  unfold JsMap.t in *. rewrite IH. lia.
Qed.

Lemma countDamage_snoc (l : list HitEntry) (e : HitEntry) :
  countDamage (l ++ [e]) = countDamage l + (if he_delta e =? -1 then 1 else 0).
Proof.
  unfold countDamage. rewrite filter_app, length_app. simpl.
  destruct (he_delta e =? -1); simpl; lia.
Qed.

Lemma messageDelta_range (message : JsString.t) :
  messageDelta message = -1 \/ messageDelta message = 0 \/ messageDelta message = 1.
Proof.
  unfold messageDelta.
  destruct (hasKeyword TRIGGER_KEYWORDS _), (hasKeyword HEAL_KEYWORDS _); simpl; auto.
Qed.

Lemma handleChatMessage_hits_consistent s username message timestamp now :
  hits_consistent s ->
  hits_consistent (fst (handleChatMessage s username message timestamp now)).
Proof.
  intros [Hsum Hcount]. unfold handleChatMessage.
  destruct (negb (phase_eqb (gamePhase s) FIGHTING)); [now split |].
  destruct (messageDelta_range message) as [E | [E | E]]; rewrite E; simpl.
  - split; simpl.
    + rewrite sumHits_set. lia.
    + rewrite countDamage_snoc. simpl. lia.
  - now split.
  - split; simpl; [assumption |].
    rewrite countDamage_snoc. simpl. lia.
Qed.

Lemma handleChatMessage_hp_in_range s username message timestamp now :
  0 <= INITIAL_HP -> hp_in_range s ->
  hp_in_range (fst (handleChatMessage s username message timestamp now)).
Proof.
  intros Hmax Hs. unfold handleChatMessage.
  destruct (negb (phase_eqb (gamePhase s) FIGHTING)); [assumption |].
  destruct (messageDelta message =? 0); [assumption |].
  unfold hp_in_range. simpl. lia.
Qed.

Lemma resetGame_fightVars (s : GameState) :
  fightVars (fst (resetGame s)) = (INITIAL_HP, [], [], 0).
Proof. reflexivity. Qed.

(** Every step is a chat message, a reset, or leaves the fight variables
    alone. *)
Lemma step_fightVars (s s' : GameState) :
  step s s' ->
  (exists username message timestamp now,
      s' = fst (handleChatMessage s username message timestamp now)) \/
  fightVars s' = (INITIAL_HP, [], [], 0) \/
  fightVars s' = fightVars s.
Proof.
  intros H. destruct H.
  - unfold onChatMessage. destruct (phase_eqb _ _); [left; eauto | now right; right].
  - unfold getTest. destruct (phase_eqb _ _).
    + left. do 4 eexists.
      destruct (handleChatMessage _ _ _ _ _) eqn:E. simpl.
      rewrite E. reflexivity.
    + now right; right.
  - right. unfold admin_reset.
    destruct data as [data|]; [| now right].
    destruct (_ || _); [now right |].
    destruct (negb _); [now right |].
    destruct (option_string_eqb _ _); [now left | now right].
  - right. unfold admin_start_betting, startBettingPhase_begin.
    destruct data as [data|]; [| now right].
    destruct (_ && _); [| now right].
    destruct (_ && _); [now right | now left].
  - right; right. unfold startBettingPhase_resume.
    destruct ok; [| reflexivity]. simpl.
    now destruct (bettingRoundPDA s), (escrowPDA s).
  - now right; right.
  - right; right. unfold loadBettingData_totals.
    repeat (destruct (BN.toNumber _); [| reflexivity]). reflexivity.
  - now right; right.
  - right; right. unfold loadBettingData_bet.
    repeat (destruct (BN.toNumber _); [| reflexivity]). reflexivity.
  - now right; right.
  - right; right. unfold startFightingPhase_catch.
    destruct (_ && _); [reflexivity |]. now destruct (_ >=? _).
  - now right; right.
  - right; right. unfold betNotification.
    now destruct (option_string_eqb _ _).
Qed.

Lemma step_hits_consistent (s s' : GameState) :
  hits_consistent s -> step s s' -> hits_consistent s'.
Proof.
  intros Hs H. destruct (step_fightVars _ _ H) as [[u [m [ts [now ->]]]] | [E | E]].
  - now apply handleChatMessage_hits_consistent.
  - unfold fightVars in E. injection E as _ Hu Hc Ht.
    unfold hits_consistent. now rewrite Hu, Hc, Ht.
  - unfold fightVars in E. injection E as _ Hu Hc Ht.
    unfold hits_consistent. now rewrite Hu, Hc, Ht.
Qed.

Lemma step_hp_in_range (s s' : GameState) :
  0 <= INITIAL_HP -> hp_in_range s -> step s s' -> hp_in_range s'.
Proof.
  intros Hmax Hs H.
  destruct (step_fightVars _ _ H) as [[u [m [ts [now ->]]]] | [E | E]].
  - now apply handleChatMessage_hp_in_range.
  - unfold fightVars in E. injection E as Hb _ _ _.
    unfold hp_in_range. rewrite Hb. lia.
  - unfold fightVars in E. injection E as Hb _ _ _.
    unfold hp_in_range. now rewrite Hb.
Qed.

Lemma reachable_hp_in_range (s : GameState) :
  0 <= INITIAL_HP -> reachable s -> hp_in_range s.
Proof.
  intros Hmax H. induction H as [|s s' _ IH Hstep].
  - unfold hp_in_range. simpl. lia.
  - eapply step_hp_in_range; eassumption.
Qed.

Lemma reachable_hits_consistent (s : GameState) :
  reachable s -> hits_consistent s.
Proof.
  intros H. induction H as [|s s' _ IH Hstep].
  - now split.
  - eapply step_hits_consistent; eassumption.
Qed.

(** C3.  With a non-negative configured [INITIAL_HP], every reachable state
    has [0 <= bossHP <= INITIAL_HP]: no sequence of chat messages, phase
    transitions, bet notifications or resets leaves the range. *)
Theorem C3_bossHP_in_range (s : GameState) :
  0 <= INITIAL_HP -> reachable s -> 0 <= bossHP s <= INITIAL_HP.
Proof. exact (reachable_hp_in_range s). Qed.

(** C4.  In every reachable state [totalHits] is the sum of the values of
    [userHits] and the number of entries of [chronological] with delta -1;
    and every step of the server (damage, heal, reset, phase change, bet
    notification) started from a state with these equalities ends in one. *)
Theorem C4_totalHits_accounting :
  (forall s, reachable s ->
     totalHits s = sumHits (userHits s) /\
     totalHits s = countDamage (chronological s)) /\
  (forall s s', hits_consistent s -> step s s' -> hits_consistent s').
Proof.
  split.
  - exact reachable_hits_consistent.
  - exact step_hits_consistent.
Qed.

(** ** Damage and heal *)

Lemma phase_eqb_eq (a b : GamePhase) : phase_eqb a b = true <-> a = b.
Proof. destruct a, b; simpl; split; congruence. Qed.

Lemma handleChatMessage_heal s username message timestamp now :
  gamePhase s = FIGHTING -> hp_in_range s -> messageDelta message = 1 ->
  handleChatMessage s username message timestamp now =
  (healed s (entryOf username message timestamp 1),
   [updateOf (healed s (entryOf username message timestamp 1))
      (entryOf username message timestamp 1) now]).
Proof.
  intros Hphase [Hlo Hhi] Hd. unfold handleChatMessage.
  rewrite Hphase, Hd. simpl.
  unfold healed, updateOf, entryOf, set_bossHP, set_chronological. simpl.
  replace (Z.max 0 (Z.min INITIAL_HP (bossHP s + 1)))
    with (Z.min INITIAL_HP (bossHP s + 1)) by lia.
  reflexivity.
Qed.

Lemma handleChatMessage_damage s username message timestamp now :
  gamePhase s = FIGHTING -> hp_in_range s -> messageDelta message = -1 ->
  handleChatMessage s username message timestamp now =
  (damaged s username (entryOf username message timestamp (-1)),
   [updateOf (damaged s username (entryOf username message timestamp (-1)))
      (entryOf username message timestamp (-1)) now]).
Proof.
  intros Hphase [Hlo Hhi] Hd. unfold handleChatMessage.
  rewrite Hphase, Hd. destruct s. cbn in *.
  unfold damaged, updateOf, entryOf. cbn.
  replace (Z.max 0 (Z.min INITIAL_HP (bossHP0 + -1)))
    with (Z.max 0 (bossHP0 - 1)) by lia.
  reflexivity.
Qed.

(** C7.  A heal applied to a reachable state in the fighting phase (with a
    non-negative [INITIAL_HP]) appends one entry with delta +1 to
    [chronological] and sets [bossHP] to [min(maxHP, bossHP + 1)]; no other
    variable changes, in particular not [userHits], [lastHitter] and
    [totalHits]. *)
Theorem C7_heal_frame s username message timestamp now :
  0 <= INITIAL_HP -> reachable s -> gamePhase s = FIGHTING ->
  messageDelta message = 1 ->
  let s' := fst (handleChatMessage s username message timestamp now) in
  s' = set_bossHP (Z.min INITIAL_HP (bossHP s + 1))
         (set_chronological
            (chronological s ++ [entryOf username message timestamp 1]) s) /\
  userHits s' = userHits s /\
  lastHitter s' = lastHitter s /\
  totalHits s' = totalHits s.
Proof.
  intros Hmax Hreach Hphase Hd.
  rewrite handleChatMessage_heal;
    [| assumption | now apply reachable_hp_in_range | assumption].
  simpl. repeat split.
Qed.

(** What damage followed by heal does to the hit points. *)
Lemma damage_heal_bossHP (b : Z) :
  0 <= b <= INITIAL_HP ->
  Z.min INITIAL_HP (Z.max 0 (b - 1) + 1) =
  if 0 <? b then b else Z.min INITIAL_HP 1.
Proof. intros H. destruct (Z.ltb_spec 0 b); lia. Qed.

(** C8, as the code has it.  Damage by [u1] followed by a heal, applied to a
    reachable fighting-phase state [S], gives the state [S] with the two
    entries appended to [chronological], [totalHits] and the hits of [u1]
    raised by one, [lastHitter] set to [u1], and [bossHP] unchanged when it was
    positive and [min(maxHP, 1)] when it was 0.  So [bossHP] comes back to its
    value exactly when it was positive (or [maxHP] is 0), the top of the range
    included, and the resulting state is never [S]. *)
Theorem C8_damage_then_heal S u1 m1 t1 now1 u2 m2 t2 now2 :
  0 <= INITIAL_HP -> reachable S -> gamePhase S = FIGHTING ->
  messageDelta m1 = -1 -> messageDelta m2 = 1 ->
  let S1 := fst (handleChatMessage S u1 m1 t1 now1) in
  let S2 := fst (handleChatMessage S1 u2 m2 t2 now2) in
  S2 = set_bossHP (if 0 <? bossHP S then bossHP S else Z.min INITIAL_HP 1)
         (set_chronological
            (chronological S ++ [entryOf u1 m1 t1 (-1); entryOf u2 m2 t2 1])
            (set_lastHitter (Some u1)
               (set_userHits
                  (JsMap.set u1 (or_default (JsMap.get u1 (userHits S)) 0 + 1)
                     (userHits S))
                  (set_totalHits (totalHits S + 1) S)))) /\
  (bossHP S2 = bossHP S <-> 0 < bossHP S \/ INITIAL_HP = 0) /\
  S2 <> S.
Proof.
  intros Hmax Hreach Hphase Hd1 Hd2.
  pose proof (reachable_hp_in_range S Hmax Hreach) as Hhp.
  assert (Hrange := Hhp). destruct Hrange as [Hlo Hhi].
  rewrite (handleChatMessage_damage S u1 m1 t1 now1 Hphase Hhp Hd1). simpl.
  rewrite handleChatMessage_heal;
    [| exact Hphase | unfold hp_in_range; simpl; lia | assumption].
  simpl. unfold healed, damaged. simpl.
  rewrite damage_heal_bossHP by lia.
  split; [| split].
  - unfold set_bossHP, set_chronological. simpl.
    now rewrite <- app_assoc.
  - simpl. destruct (Z.ltb_spec 0 (bossHP S)); lia.
  - intros E. apply (f_equal totalHits) in E. simpl in E. lia.
Qed.

(** ** Settlement *)

Lemma processBetAccount_spec winning L W feePct (a : BetAccount) :
  processBetAccount winning L W feePct a =
  (payoutCallFor winning a, payoutRowFor winning L W feePct a).
Proof.
  unfold processBetAccount, payoutCallFor, payoutRowFor, BN.toNumber, numberShare.
  destruct (ba_fetch a) as [betData|]; [| reflexivity].
  destruct (Z.abs (bd_amount betData) <? 2 ^ 53); cbn [andb].
  - destruct (String.eqb (bd_prediction betData) winning);
      now destruct (ba_claim a).
  - now destruct (ba_claim a).
Qed.

Lemma processBetAccounts_spec winning L W feePct (l : list BetAccount) :
  processBetAccounts winning L W feePct l =
  (flat_map (payoutCallFor winning) l, flat_map (payoutRowFor winning L W feePct) l).
Proof.
  induction l as [|a r IH]; simpl; [reflexivity |].
  now rewrite processBetAccount_spec, IH.
Qed.

(** ** Retries of the fighting-phase transition *)

Lemma startFightingPhase_catch_retry s retryCount error :
  isBettingStillActive error = true -> retryCount < 5 ->
  startFightingPhase_catch s retryCount error =
  (s, [setTimeout (cb_startFightingPhase (retryCount + 1)) 2000]).
Proof.
  intros He Hrc. unfold startFightingPhase_catch. rewrite He.
  now replace (retryCount <? 5) with true by (symmetry; apply Z.ltb_lt; lia).
Qed.

Lemma startFightingPhase_catch_exhausted s retryCount error :
  5 <= retryCount ->
  startFightingPhase_catch s retryCount error = (set_gamePhase IDLE s, [failedToStart]).
Proof.
  intros Hrc. unfold startFightingPhase_catch.
  replace (retryCount <? 5) with false by (symmetry; apply Z.ltb_ge; lia).
  rewrite andb_false_r.
  assert (H : (retryCount >=? 5) = true)
    by (rewrite Z.geb_leb; apply Z.leb_le; lia).
  now rewrite H.
Qed.

Lemma startFightingPhase_catch_other s retryCount error :
  isBettingStillActive error = false -> retryCount < 5 ->
  startFightingPhase_catch s retryCount error = (s, []).
Proof.
  intros He Hrc. unfold startFightingPhase_catch. rewrite He. simpl.
  assert (H : (retryCount >=? 5) = false)
    by (rewrite Z.geb_leb; apply Z.leb_gt; lia).
  now rewrite H.
Qed.

Lemma failing_retry s retryCount error later :
  gamePhase s = BETTING -> isBettingStillActive error = true -> retryCount < 5 ->
  startFightingPhase_failing s retryCount (error :: later) =
  (fst (startFightingPhase_failing s (retryCount + 1) later),
   [rpc (rpc_startFightPhase (bettingRoundPDA s));
    setTimeout (cb_startFightingPhase (retryCount + 1)) 2000] ++
   snd (startFightingPhase_failing s (retryCount + 1) later)).
Proof.
  intros Hphase He Hrc. simpl. unfold startFightingPhase_begin.
  rewrite Hphase. simpl.
  rewrite startFightingPhase_catch_retry by assumption.
  now destruct (startFightingPhase_failing s (retryCount + 1) later).
Qed.

Lemma failing_exhausted s retryCount error later :
  gamePhase s = BETTING -> 5 <= retryCount ->
  startFightingPhase_failing s retryCount (error :: later) =
  (set_gamePhase IDLE s,
   [rpc (rpc_startFightPhase (bettingRoundPDA s)); failedToStart]).
Proof.
  intros Hphase Hrc. simpl. unfold startFightingPhase_begin.
  rewrite Hphase. simpl.
  now rewrite startFightingPhase_catch_exhausted by assumption.
Qed.

Lemma failing_other s retryCount error later :
  gamePhase s = BETTING -> isBettingStillActive error = false -> retryCount < 5 ->
  startFightingPhase_failing s retryCount (error :: later) =
  (s, [rpc (rpc_startFightPhase (bettingRoundPDA s))]).
Proof.
  intros Hphase He Hrc. simpl. unfold startFightingPhase_begin.
  rewrite Hphase. simpl.
  now rewrite startFightingPhase_catch_other by assumption.
Qed.

Lemma failing_not_betting s retryCount errors :
  gamePhase s <> BETTING ->
  startFightingPhase_failing s retryCount errors = (s, []).
Proof.
  intros Hphase. destruct errors as [|error later]; [reflexivity |].
  simpl. unfold startFightingPhase_begin.
  destruct (phase_eqb (gamePhase s) BETTING) eqn:E; [| reflexivity].
  now apply phase_eqb_eq in E.
Qed.

(** From retry count [retryCount] on, at most [5 - retryCount] retry timers
    are set, whatever the ledger answers. *)
Lemma failing_retries_bound s retryCount errors :
  0 <= retryCount ->
  (Z.of_nat (retries (snd (startFightingPhase_failing s retryCount errors)))
     <= Z.max 0 (5 - retryCount)) /\
  (Z.of_nat (attempts (snd (startFightingPhase_failing s retryCount errors)))
     <= Z.max 1 (6 - retryCount)).
Proof.
  revert retryCount. induction errors as [|error later IH]; intros retryCount Hrc.
  - simpl. unfold retries, attempts. simpl. lia.
  - destruct (phase_eqb (gamePhase s) BETTING) eqn:Ephase.
    + apply phase_eqb_eq in Ephase.
      destruct (Z.lt_ge_cases retryCount 5) as [Hlt | Hge].
      * destruct (isBettingStillActive error) eqn:He.
        -- rewrite failing_retry by assumption.
           destruct (IH (retryCount + 1)) as [IHr IHa]; [lia |].
           unfold retries, attempts in *.
           cbn [snd app filter is_retry_timer is_startFightPhase List.length].
           lia.
        -- rewrite failing_other by assumption.
           unfold retries, attempts. simpl. lia.
      * rewrite failing_exhausted by assumption.
        unfold retries, attempts. simpl. lia.
    + rewrite failing_not_betting.
      * unfold retries, attempts. simpl. lia.
      * intros E. rewrite E in Ephase. discriminate.
Qed.

(** C6.  When [startFightPhase] throws in an invocation with retry count
    [retryCount], a retry is scheduled exactly when the error is
    [BettingStillActive] and [retryCount < 5], and then it is the invocation
    with [retryCount + 1], 2000 ms later.  An invocation that fails with
    [retryCount >= 5] sets the phase to [IDLE] and publishes the
    [phase_change] message.  Along the invocations started by the betting
    timer there are at most 5 retries (6 ledger calls); and when the ledger
    answers [BettingStillActive] six times from the betting phase, the five
    retries are followed by the return to [IDLE] with the message. *)
Theorem C6_startFight_retry (s : GameState) :
  (forall retryCount error,
     In (setTimeout (cb_startFightingPhase (retryCount + 1)) 2000)
        (snd (startFightingPhase_catch s retryCount error)) <->
     isBettingStillActive error = true /\ retryCount < 5) /\
  (forall retryCount error cb ms,
     In (setTimeout cb ms) (snd (startFightingPhase_catch s retryCount error)) ->
     cb = cb_startFightingPhase (retryCount + 1) /\ ms = 2000) /\
  (forall retryCount error, 5 <= retryCount ->
     startFightingPhase_catch s retryCount error =
     (set_gamePhase IDLE s, [failedToStart])) /\
  (forall errors,
     (retries (snd (startFightingPhase_failing s 0 errors)) <= 5)%nat /\
     (attempts (snd (startFightingPhase_failing s 0 errors)) <= 6)%nat) /\
  (forall e0 e1 e2 e3 e4 e5 later,
     gamePhase s = BETTING ->
     Forall (fun e => isBettingStillActive e = true) [e0; e1; e2; e3; e4; e5] ->
     startFightingPhase_failing s 0 (e0 :: e1 :: e2 :: e3 :: e4 :: e5 :: later) =
     (set_gamePhase IDLE s,
      [rpc (rpc_startFightPhase (bettingRoundPDA s));
       setTimeout (cb_startFightingPhase 1) 2000;
       rpc (rpc_startFightPhase (bettingRoundPDA s));
       setTimeout (cb_startFightingPhase 2) 2000;
       rpc (rpc_startFightPhase (bettingRoundPDA s));
       setTimeout (cb_startFightingPhase 3) 2000;
       rpc (rpc_startFightPhase (bettingRoundPDA s));
       setTimeout (cb_startFightingPhase 4) 2000;
       rpc (rpc_startFightPhase (bettingRoundPDA s));
       setTimeout (cb_startFightingPhase 5) 2000;
       rpc (rpc_startFightPhase (bettingRoundPDA s));
       failedToStart])).
Proof.
  split; [| split; [| split; [| split]]].
  - intros retryCount error.
    destruct (Z.lt_ge_cases retryCount 5) as [Hlt | Hge].
    + destruct (isBettingStillActive error) eqn:He.
      * rewrite startFightingPhase_catch_retry by easy. simpl. tauto.
      * rewrite startFightingPhase_catch_other by easy. simpl.
        split; [tauto | intros [H _]; discriminate].
    + rewrite startFightingPhase_catch_exhausted by assumption. simpl.
      split; [intros [H | []]; discriminate | lia].
  - intros retryCount error cb ms.
    destruct (Z.lt_ge_cases retryCount 5) as [Hlt | Hge].
    + destruct (isBettingStillActive error) eqn:He.
      * rewrite startFightingPhase_catch_retry by easy. simpl.
        intros [H | []]. injection H as <- <-. now split.
      * rewrite startFightingPhase_catch_other by easy. simpl. tauto.
    + rewrite startFightingPhase_catch_exhausted by assumption. simpl.
      intros [H | []]; discriminate.
  - intros. now apply startFightingPhase_catch_exhausted.
  - intros errors.
    destruct (failing_retries_bound s 0 errors) as [Hr Ha]; lia.
  - intros e0 e1 e2 e3 e4 e5 later Hphase Hall.
    repeat match goal with
           | H : Forall _ (_ :: _) |- _ =>
               apply Forall_cons_iff in H; destruct H as [? H]
           end.
    do 5 (rewrite failing_retry by (assumption || lia)).
    rewrite failing_exhausted by (assumption || lia).
    reflexivity.
Qed.

(** ** Bet notifications *)

Lemma JsMap_get_set_same {V : Type} (k : string) (v : V) (m : JsMap.t V) :
  JsMap.get k (JsMap.set k v m) = Some v.
Proof.
  induction m as [|[k' v'] r IH]; simpl.
  - now rewrite String.eqb_refl.
  - destruct (String.eqb k k') eqn:E; simpl; rewrite E; [reflexivity | exact IH].
Qed.

Lemma JsMap_get_set_other {V : Type} (k k2 : string) (v : V) (m : JsMap.t V) :
  k2 <> k -> JsMap.get k2 (JsMap.set k v m) = JsMap.get k2 m.
Proof.
  intros Hne. induction m as [|[k' v'] r IH]; simpl.
  - destruct (String.eqb_spec k2 k); [contradiction | reflexivity].
  - destruct (String.eqb_spec k k') as [<- | Hk]; simpl.
    + destruct (String.eqb_spec k2 k); [contradiction | reflexivity].
    + now rewrite IH.
Qed.

Lemma JsMap_size_set_present {V : Type} (k : string) (v w : V) (m : JsMap.t V) :
  JsMap.get k m = Some w -> JsMap.size (JsMap.set k v m) = JsMap.size m.
Proof.
  unfold JsMap.size. induction m as [|[k' v'] r IH]; simpl; [discriminate |].
  destruct (String.eqb k k'); simpl; [reflexivity |].
  intros H. now rewrite IH.
Qed.

Lemma option_string_eqb_eq (a b : option string) :
  option_string_eqb a b = true <-> a = b.
Proof.
  destruct a as [x|], b as [y|]; simpl; try (split; congruence).
  rewrite String.eqb_eq. split; congruence.
Qed.

(** The entry a notification stores. *)
Lemma betNotification_entry s body now :
  JsMap.get (bn_walletAddress body) (onChainBets (fst (betNotification s body now))) =
  Some (notifiedBet body now).
Proof.
  unfold betNotification, notifiedBet.
  destruct (option_string_eqb _ _); simpl; apply JsMap_get_set_same.
Qed.

(** The totals after a notification. *)
Lemma betNotification_totals s body now :
  let lamports := Double.mul (bn_amount body) (Double.of_Z LAMPORTS_PER_SOL) in
  let s' := fst (betNotification s body now) in
  (bn_prediction body = Some "death" ->
   totalDeathBets s' = Double.add (totalDeathBets s) lamports /\
   totalSurvivalBets s' = totalSurvivalBets s) /\
  (bn_prediction body <> Some "death" ->
   totalSurvivalBets s' = Double.add (totalSurvivalBets s) lamports /\
   totalDeathBets s' = totalDeathBets s).
Proof.
  cbv zeta. unfold betNotification. split.
  - intros Hp. rewrite Hp. simpl. now split.
  - intros Hp. destruct (option_string_eqb _ _) eqn:E.
    + apply option_string_eqb_eq in E. contradiction.
    + simpl. now split.
Qed.

(** C9.  A bet notification adds the notified amount, converted to lamports
    by the number multiplication [amount * LAMPORTS_PER_SOL], to
    [totalDeathBets] when its prediction is the string ['death'] and to
    [totalSurvivalBets] for every other prediction, a missing one included,
    and leaves the other total alone; it stores the bet under its wallet in
    [onChainBets].  A second notification for the same wallet replaces that
    entry, so the number of entries stays the same and no other entry
    changes, while its amount is added to the total of its side again. *)
Theorem C9_bet_notification (s : GameState) (body : BetNotification) (now : Z) :
  let lamports := Double.mul (bn_amount body) (Double.of_Z LAMPORTS_PER_SOL) in
  let s' := fst (betNotification s body now) in
  (bn_prediction body = Some "death" ->
   totalDeathBets s' = Double.add (totalDeathBets s) lamports /\
   totalSurvivalBets s' = totalSurvivalBets s) /\
  (bn_prediction body <> Some "death" ->
   totalSurvivalBets s' = Double.add (totalSurvivalBets s) lamports /\
   totalDeathBets s' = totalDeathBets s) /\
  JsMap.get (bn_walletAddress body) (onChainBets s') =
    Some {| bet_username := bn_username body;
            bet_amount := lamports;
            bet_prediction := bn_prediction body;
            bet_signature := bn_signature body;
            bet_timestamp := now |} /\
  (forall body2 now2,
     bn_walletAddress body2 = bn_walletAddress body ->
     let lamports2 :=
       Double.mul (bn_amount body2) (Double.of_Z LAMPORTS_PER_SOL) in
     let s'' := fst (betNotification s' body2 now2) in
     JsMap.get (bn_walletAddress body) (onChainBets s'') =
       Some {| bet_username := bn_username body2;
               bet_amount := lamports2;
               bet_prediction := bn_prediction body2;
               bet_signature := bn_signature body2;
               bet_timestamp := now2 |} /\
     JsMap.size (onChainBets s'') = JsMap.size (onChainBets s') /\
     (forall other, other <> bn_walletAddress body ->
        JsMap.get other (onChainBets s'') = JsMap.get other (onChainBets s')) /\
     (bn_prediction body2 = Some "death" ->
      totalDeathBets s'' = Double.add (totalDeathBets s') lamports2 /\
      totalSurvivalBets s'' = totalSurvivalBets s') /\
     (bn_prediction body2 <> Some "death" ->
      totalSurvivalBets s'' = Double.add (totalSurvivalBets s') lamports2 /\
      totalDeathBets s'' = totalDeathBets s')).
Proof.
  intros lamports s'.
  destruct (betNotification_totals s body now) as [Hd Hs].
  split; [exact Hd |]. split; [exact Hs |].
  split; [apply betNotification_entry |].
  intros body2 now2 Hw lamports2 s''. subst s''.
  destruct (betNotification_totals s' body2 now2) as [Hd2 Hs2].
  split; [| split; [| split; [| split]]].
  - rewrite <- Hw. apply betNotification_entry.
  - unfold betNotification at 1.
    destruct (option_string_eqb (bn_prediction body2) _); simpl;
      rewrite Hw; eapply JsMap_size_set_present;
      apply betNotification_entry.
  - intros other Hother. unfold betNotification at 1.
    destruct (option_string_eqb (bn_prediction body2) _); simpl;
      rewrite Hw; now apply JsMap_get_set_other.
  - exact Hd2.
  - exact Hs2.
Qed.

(** * Further properties of the code *)

(** ** The fight variables along a run *)

Lemma handleChatMessage_cases s username message timestamp now :
  (handleChatMessage s username message timestamp now = (s, []) /\
   (gamePhase s <> FIGHTING \/ messageDelta message = 0)) \/
  (gamePhase s = FIGHTING /\ messageDelta message = -1 /\
   fightView (fst (handleChatMessage s username message timestamp now)) =
   (Z.max 0 (Z.min INITIAL_HP (bossHP s - 1)),
    JsMap.set username (hitsOf username (userHits s) + 1) (userHits s),
    chronological s ++ [entryOf username message timestamp (-1)],
    totalHits s + 1, Some username)) \/
  (gamePhase s = FIGHTING /\ messageDelta message = 1 /\
   fightView (fst (handleChatMessage s username message timestamp now)) =
   (Z.max 0 (Z.min INITIAL_HP (bossHP s + 1)), userHits s,
    chronological s ++ [entryOf username message timestamp 1],
    totalHits s, lastHitter s)).
Proof.
  unfold handleChatMessage.
  destruct (phase_eqb (gamePhase s) FIGHTING) eqn:Ephase; simpl.
  - apply phase_eqb_eq in Ephase.
    destruct (messageDelta_range message) as [E | [E | E]]; rewrite E; simpl.
    + right; left. repeat split; assumption.
    + left. split; [reflexivity | now right].
    + right; right. repeat split; assumption.
  - left. split; [reflexivity |]. left. intros E. rewrite E in Ephase. discriminate.
Qed.

Lemma step_fightView (s s' : GameState) :
  step s s' ->
  (exists username message timestamp now,
      s' = fst (handleChatMessage s username message timestamp now)) \/
  fightView s' = (INITIAL_HP, [], [], 0, None) \/
  fightView s' = fightView s.
Proof.
  intros H. destruct H.
  - unfold onChatMessage. destruct (phase_eqb _ _); [left; eauto | now right; right].
  - unfold getTest. destruct (phase_eqb _ _).
    + left. do 4 eexists.
      destruct (handleChatMessage _ _ _ _ _) eqn:E. simpl.
      rewrite E. reflexivity.
    + now right; right.
  - right. unfold admin_reset.
    destruct data as [data|]; [| now right].
    destruct (_ || _); [now right |].
    destruct (negb _); [now right |].
    destruct (option_string_eqb _ _); [now left | now right].
  - right. unfold admin_start_betting, startBettingPhase_begin.
    destruct data as [data|]; [| now right].
    destruct (_ && _); [| now right].
    destruct (_ && _); [now right | now left].
  - right; right. unfold startBettingPhase_resume.
    destruct ok; [| reflexivity]. simpl.
    now destruct (bettingRoundPDA s), (escrowPDA s).
  - now right; right.
  - right; right. unfold loadBettingData_totals.
    repeat (destruct (BN.toNumber _); [| reflexivity]). reflexivity.
  - now right; right.
  - right; right. unfold loadBettingData_bet.
    repeat (destruct (BN.toNumber _); [| reflexivity]). reflexivity.
  - now right; right.
  - right; right. unfold startFightingPhase_catch.
    destruct (_ && _); [reflexivity |]. now destruct (_ >=? _).
  - now right; right.
  - right; right. unfold betNotification.
    now destruct (option_string_eqb _ _).
Qed.

(** A property of the fight variables that holds at start-up and after a
    reset, and that chat messages keep, holds in every reachable state. *)
Lemma fight_invariant
    (P : Z * JsMap.t Z * list HitEntry * Z * option string -> Prop) :
  P (INITIAL_HP, [], [], 0, None) ->
  (forall s username message timestamp now,
     P (fightView s) ->
     P (fightView (fst (handleChatMessage s username message timestamp now)))) ->
  forall s, reachable s -> P (fightView s).
Proof.
  intros Hinit Hchat s H. induction H as [|s s' _ IH Hstep]; [exact Hinit |].
  destruct (step_fightView _ _ Hstep) as [[u [m [ts [now ->]]]] | [E | E]].
  - now apply Hchat.
  - now rewrite E.
  - now rewrite E.
Qed.

Lemma hitsOf_set (user other : string) (v : Z) (m : JsMap.t Z) :
  hitsOf other (JsMap.set user v m) =
  if String.eqb other user then v else hitsOf other m.
Proof.
  unfold hitsOf. destruct (String.eqb_spec other user) as [-> | Hne].
  - now rewrite JsMap_get_set_same.
  - now rewrite JsMap_get_set_other.
Qed.

Lemma countUserDamage_snoc (user : string) (l : list HitEntry) (e : HitEntry) :
  countUserDamage user (l ++ [e]) =
  countUserDamage user l +
  (if String.eqb (he_username e) user && (he_delta e =? -1) then 1 else 0).
Proof.
  unfold countUserDamage. rewrite filter_app, length_app. simpl.
  destruct (_ && _); simpl; lia.
Qed.

(** X1.  In every reachable state the score of each user in [userHits] (0 for
    a user without entry) is the number of damage entries of that user in
    [chronological]. *)
Theorem X1_user_hits_match_log (s : GameState) (user : string) :
  reachable s ->
  hitsOf user (userHits s) = countUserDamage user (chronological s).
Proof.
  intros H. revert user.
  apply (fight_invariant
           (fun v => let '(_, uh, ch, _, _) := v in
                     forall user, hitsOf user uh = countUserDamage user ch));
    [reflexivity | | exact H].
  clear s H. intros s u m ts now IH.
  destruct (handleChatMessage_cases s u m ts now)
    as [[E _] | [[_ [_ E]] | [_ [_ E]]]]; rewrite E; [exact IH | |];
    simpl in *; intros user.
  - rewrite hitsOf_set, countUserDamage_snoc. simpl.
    rewrite (String.eqb_sym u user).
    destruct (String.eqb user u) eqn:Eu; simpl.
    + apply String.eqb_eq in Eu. subst. rewrite IH. lia.
    + rewrite IH. lia.
  - rewrite countUserDamage_snoc. simpl. rewrite andb_false_r.
    rewrite IH. lia.
Qed.

Lemma lastDamager_snoc (l : list HitEntry) (e : HitEntry) :
  lastDamager (l ++ [e]) =
  if he_delta e =? -1 then Some (he_username e) else lastDamager l.
Proof.
  unfold lastDamager. rewrite rev_app_distr. simpl.
  now destruct (he_delta e =? -1).
Qed.

(** X2.  In every reachable state [lastHitter] is the user of the latest
    damage entry of [chronological] ([null] when there is none: heals never
    set it), and every entry of [chronological] has delta -1 or +1. *)
Theorem X2_lastHitter_is_latest_damager (s : GameState) :
  reachable s ->
  lastHitter s = lastDamager (chronological s) /\
  Forall (fun e => he_delta e = -1 \/ he_delta e = 1) (chronological s).
Proof.
  intros H.
  apply (fight_invariant
           (fun v => let '(_, _, ch, _, lh) := v in
                     lh = lastDamager ch /\
                     Forall (fun e => he_delta e = -1 \/ he_delta e = 1) ch));
    [now split | | exact H].
  clear s H. intros s u m ts now IH.
  destruct (handleChatMessage_cases s u m ts now)
    as [[E _] | [[_ [_ E]] | [_ [_ E]]]]; rewrite E; [exact IH | |];
    simpl in *; destruct IH as [IHl IHd]; rewrite lastDamager_snoc; simpl;
    (split; [auto | apply Forall_app; split;
                      [assumption | constructor; [simpl; lia | constructor]]]).
Qed.

Lemma reachable_bossHP_lower (s : GameState) :
  reachable s -> 0 <= totalHits s /\ INITIAL_HP - totalHits s <= bossHP s.
Proof.
  intros H.
  apply (fight_invariant
           (fun v => let '(b, _, _, th, _) := v in 0 <= th /\ INITIAL_HP - th <= b));
    [simpl; lia | | exact H].
  clear s H. intros s u m ts now IH.
  destruct (handleChatMessage_cases s u m ts now)
    as [[E _] | [[_ [_ E]] | [_ [_ E]]]]; rewrite E; [exact IH | |];
    simpl in *; lia.
Qed.

(** X3.  In every reachable state [bossHP >= INITIAL_HP - totalHits]: the boss
    is at 0 only after at least [INITIAL_HP] damage messages of the round, and
    [endFight] called with a reason other than ['defeated'] (the fight timer
    passes ['timeout']) reports the boss defeated only then. *)
Theorem X3_defeat_needs_enough_hits (s : GameState) :
  reachable s ->
  INITIAL_HP - totalHits s <= bossHP s /\
  (bossHP s = 0 -> INITIAL_HP <= totalHits s) /\
  (forall reason, reason <> "defeated" ->
     snd (endFight_begin s reason) = Some true -> INITIAL_HP <= totalHits s).
Proof.
  intros H. destruct (reachable_bossHP_lower s H) as [Hth Hb].
  split; [assumption |]. split; [lia |].
  intros reason Hreason. unfold endFight_begin.
  destruct (negb _); simpl; [discriminate |].
  destruct (String.eqb_spec reason "defeated") as [-> | _]; [contradiction |].
  simpl. destruct (Z.eqb_spec (bossHP s) 0); [lia | discriminate].
Qed.

(** ** The users of [userHits] *)

Lemma JsMap_set_keys {V : Type} (k : string) (v : V) (m : JsMap.t V) :
  (In k (map fst m) /\ map fst (JsMap.set k v m) = map fst m) \/
  (~ In k (map fst m) /\ map fst (JsMap.set k v m) = map fst m ++ [k]).
Proof.
  induction m as [|[k' v'] r IH]; simpl.
  - right. split; [tauto | reflexivity].
  - destruct (String.eqb_spec k k') as [-> | Hne]; simpl.
    + left. split; [now left | reflexivity].
    + destruct IH as [[Hin E] | [Hnin E]]; unfold JsMap.t in *; rewrite E.
      * left. split; [now right | reflexivity].
      * right. split; [| reflexivity]. intros [H | H]; [congruence | contradiction].
Qed.

Lemma JsMap_set_Forall {V : Type} (Q : string * V -> Prop) (k : string) (v : V)
    (m : JsMap.t V) :
  Forall Q m -> Q (k, v) -> Forall Q (JsMap.set k v m).
Proof.
  intros Hm Hk. induction Hm as [|[k' v'] r Hx Hr IH]; simpl.
  - now repeat constructor.
  - destruct (String.eqb_spec k k') as [<- | Hne]; constructor; assumption.
Qed.

Lemma hitsOf_nonneg (user : string) (m : JsMap.t Z) :
  Forall (fun kv => 1 <= snd kv) m -> 0 <= hitsOf user m.
Proof.
  unfold hitsOf. intros Hm. induction Hm as [|[k v] r Hx Hr IH]; simpl; [lia |].
  destruct (String.eqb user k); simpl in *; [lia | assumption].
Qed.

Lemma reachable_userHits_wf (s : GameState) :
  reachable s ->
  NoDup (map fst (userHits s)) /\ Forall (fun kv => 1 <= snd kv) (userHits s).
Proof.
  intros H.
  apply (fight_invariant
           (fun v => let '(_, uh, _, _, _) := v in
                     NoDup (map fst uh) /\ Forall (fun kv => 1 <= snd kv) uh));
    [split; constructor | | exact H].
  clear s H. intros s u m ts now IH.
  destruct (handleChatMessage_cases s u m ts now)
    as [[E _] | [[_ [_ E]] | [_ [_ E]]]]; rewrite E; [exact IH | | exact IH].
  simpl in *. destruct IH as [Hnd Hpos]. split.
  - destruct (JsMap_set_keys u (hitsOf u (userHits s) + 1) (userHits s))
      as [[_ E'] | [Hnin E']]; rewrite E'; [assumption |].
    apply NoDup_app; [assumption | repeat constructor; tauto |].
    intros x Hx [<- | []]. contradiction.
  - apply JsMap_set_Forall; [assumption |]. simpl.
    pose proof (hitsOf_nonneg u _ Hpos). lia.
Qed.

Lemma NoDup_firstn {A : Type} (n : nat) (l : list A) :
  NoDup l -> NoDup (firstn n l).
Proof.
  intros H. rewrite <- (firstn_skipn n l) in H.
  now apply NoDup_app_remove_r in H.
Qed.

Lemma usersOf_scores (m : JsMap.t Z) :
  usersOf (map scoreOf (JsMap.entries m)) = map fst m.
Proof.
  unfold usersOf, JsMap.entries. rewrite map_map. now apply map_ext.
Qed.

(** X4.  In every reachable state [getTop(n)] lists no user twice, and every
    user it lists has at least one hit. *)
Theorem X4_getTop_users (s : GameState) (n : nat) :
  reachable s ->
  NoDup (usersOf (getTop s n)) /\
  Forall (fun row => 1 <= hits row) (getTop s n).
Proof.
  intros H. destruct (reachable_userHits_wf s H) as [Hnd Hpos].
  unfold getTop, slice0.
  pose proof (array_sort_perm byHits (map scoreOf (JsMap.entries (userHits s))))
    as Hperm.
  split.
  - unfold usersOf. rewrite <- firstn_map. apply NoDup_firstn.
    eapply Permutation_NoDup; [symmetry; apply Permutation_map; exact Hperm |].
    fold (usersOf (map scoreOf (JsMap.entries (userHits s)))).
    now rewrite usersOf_scores.
  - apply Forall_forall. intros row Hrow. apply In_firstn in Hrow.
    apply (Permutation_in _ Hperm) in Hrow.
    apply in_map_iff in Hrow as [[u h] [<- Hin]].
    rewrite Forall_forall in Hpos. exact (Hpos _ Hin).
Qed.

(** ** Ties and size of the leaderboard *)

Lemma sort_insert_withHits (h : Z) (x : Score) (l : list Score) :
  withHits h (sort_insert byHits x l) = withHits h (x :: l).
Proof.
  induction l as [|y r IH]; [reflexivity |].
  simpl. unfold byHits at 1.
  destruct (Z.leb_spec (hits y - hits x) 0) as [Hle | Hgt]; [reflexivity |].
  simpl in *. rewrite IH.
  destruct (Z.eqb_spec (hits x) h), (Z.eqb_spec (hits y) h); try reflexivity.
  lia.
Qed.

Lemma array_sort_withHits (h : Z) (l : list Score) :
  withHits h (array_sort byHits l) = withHits h l.
Proof.
  induction l as [|x r IH]; [reflexivity |].
  simpl array_sort. rewrite sort_insert_withHits.
  unfold withHits in *. cbn [filter]. now rewrite IH.
Qed.

Lemma array_sort_length {A : Type} (cmp : A -> A -> Z) (l : list A) :
  List.length (array_sort cmp l) = List.length l.
Proof. apply Permutation_length, array_sort_perm. Qed.

(** X5.  [getTop(n)] has [min(n, number of users)] rows and is the prefix of
    the full ranking; in the full ranking the users with the same number of
    hits stand in the order in which they entered [userHits], that is, in the
    order of their first hit. *)
Theorem X5_getTop_ties_and_size (s : GameState) (n : nat) :
  List.length (getTop s n) = Nat.min n (JsMap.size (userHits s)) /\
  getTop s n = firstn n (getTop s (JsMap.size (userHits s))) /\
  (forall h,
     withHits h (getTop s (JsMap.size (userHits s))) =
     withHits h (map scoreOf (JsMap.entries (userHits s)))).
Proof.
  unfold getTop, slice0, JsMap.size, JsMap.entries.
  set (arr := map scoreOf (userHits s)).
  assert (Hlen : List.length (array_sort byHits arr) = List.length (userHits s)).
  { rewrite array_sort_length. unfold arr. apply length_map. }
  assert (Hall : firstn (List.length (userHits s)) (array_sort byHits arr) =
                 array_sort byHits arr).
  { apply firstn_all2. lia. }
  split; [| split].
  - rewrite length_firstn. lia.
  - now rewrite Hall.
  - intros h. rewrite Hall. apply array_sort_withHits.
Qed.

(** ** The results document *)

Lemma sumHits_scores (m : JsMap.t Z) :
  sumHits m = sumZ (map hits (map scoreOf (JsMap.entries m))).
Proof.
  unfold sumHits, sumZ, JsMap.values, JsMap.entries.
  induction m as [|[k v] r IH]; simpl; [reflexivity | now rewrite IH].
Qed.

Lemma sumHits_lower (m : JsMap.t Z) :
  Forall (fun kv => 1 <= snd kv) m -> Z.of_nat (List.length m) <= sumHits m.
Proof.
  unfold sumHits, JsMap.values.
  induction 1 as [|[k v] r Hx Hr IH]; [simpl; lia |].
  cbn [List.length map fold_right snd] in *. lia.
Qed.

Lemma getTop_1_head (s : GameState) :
  match hd_error (getTop s 1) with
  | None => userHits s = []
  | Some top =>
      In (username top, hits top) (JsMap.entries (userHits s)) /\
      forall user h, In (user, h) (JsMap.entries (userHits s)) -> h <= hits top
  end.
Proof.
  unfold getTop, slice0.
  set (arr := map scoreOf (JsMap.entries (userHits s))).
  pose proof (array_sort_sorted arr) as Hsorted.
  pose proof (array_sort_perm byHits arr) as Hperm.
  destruct (array_sort byHits arr) as [|x r] eqn:E; simpl.
  - apply Permutation_nil in Hperm. unfold arr, JsMap.entries in Hperm.
    now apply map_eq_nil in Hperm.
  - split.
    + assert (Hx : In x arr) by (apply (Permutation_in _ Hperm); now left).
      apply in_map_iff in Hx as [[u h] [<- Hin]]. exact Hin.
    + intros user h Hin.
      assert (Hmem : In (scoreOf (user, h)) (x :: r)).
      { apply (Permutation_in _ (Permutation_sym Hperm)). unfold arr. now apply in_map. }
      apply StronglySorted_inv in Hsorted as [_ Hall].
      destruct Hmem as [Hx | Hmem]; [subst x; simpl; lia |].
      rewrite Forall_forall in Hall. apply (Hall _ Hmem).
Qed.

(** X6.  The results built in a reachable state are consistent: [totalHits]
    is the sum of the hits of [scores]; every score is at least 1 and at most
    [topDamage]; [topDamageDealer] is [null] exactly when [totalHits] is 0;
    and otherwise it is a user of [scores] with [topDamage] hits. *)
Theorem X6_results_consistent (s : GameState) (bossDefeated : bool) :
  reachable s ->
  let r := buildResults s bossDefeated in
  res_totalHits r = sumZ (map hits (res_scores r)) /\
  (forall row, In row (res_scores r) -> 1 <= hits row <= res_topDamage r) /\
  (res_topDamageDealer r = None <-> res_totalHits r = 0) /\
  (forall user, res_topDamageDealer r = Some user ->
     In {| username := user; hits := res_topDamage r |} (res_scores r)).
Proof.
  intros H.
  destruct (reachable_hits_consistent s H) as [Hsum _].
  destruct (reachable_userHits_wf s H) as [_ Hpos].
  pose proof (sumHits_lower _ Hpos) as Hlow.
  pose proof (getTop_1_head s) as Htop.
  cbv zeta. unfold buildResults.
  cbn [res_totalHits res_scores res_topDamage res_topDamageDealer].
  assert (Hscore : forall row,
             In row (map scoreOf (JsMap.entries (userHits s))) -> 1 <= hits row).
  { intros row Hrow. apply in_map_iff in Hrow as [[u h] [<- Hrow]].
    rewrite Forall_forall in Hpos. apply (Hpos _ Hrow). }
  split; [rewrite Hsum; apply sumHits_scores |].
  destruct (hd_error (getTop s 1)) as [top|]; cbn [option_map].
  - destruct Htop as [Hin Hmax]. split; [| split].
    + intros row Hrow. split; [now apply Hscore |].
      apply in_map_iff in Hrow as [[u h] [<- Hrow]]. simpl.
      eapply Hmax; eassumption.
    + split; [discriminate |]. intros Hzero. rewrite Hsum in Hzero.
      destruct (userHits s); [destruct Hin | cbn [List.length] in Hlow; lia].
    + intros user Huser. injection Huser as <-.
      apply in_map_iff. exists (username top, hits top). now split.
  - split; [| split].
    + intros row Hrow. rewrite Htop in Hrow. destruct Hrow.
    + split; [intros _ | reflexivity]. rewrite Hsum, Htop. reflexivity.
    + discriminate.
Qed.

(** ** Outside the fighting phase *)

(** X7.  Outside the fighting phase chat messages and [/test] requests
    change nothing: [handleChatMessage] and the chat handler return the state
    as it is with no effect, and [/test] only answers its request.  Every
    step of the server taken outside the fighting phase leaves [bossHP],
    [userHits], [chronological], [totalHits] and [lastHitter] as they are, or
    resets them all to their start-up values. *)
Theorem X7_no_fight_change_outside_fighting (s : GameState) :
  gamePhase s <> FIGHTING ->
  (forall username message timestamp now,
     handleChatMessage s username message timestamp now = (s, []) /\
     onChatMessage s username message timestamp now = (s, [])) /\
  (forall user msg now, getTest s user msg now = (s, [res_json 200])) /\
  (forall s', step s s' ->
     fightView s' = fightView s \/
     fightView s' = (INITIAL_HP, [], [], 0, None)).
Proof.
  intros Hphase.
  assert (E : phase_eqb (gamePhase s) FIGHTING = false).
  { destruct (phase_eqb (gamePhase s) FIGHTING) eqn:E; [| reflexivity].
    apply phase_eqb_eq in E. contradiction. }
  split; [| split].
  - intros. unfold onChatMessage, handleChatMessage. now rewrite E.
  - intros. unfold getTest. now rewrite E.
  - intros s' Hstep.
    destruct (step_fightView _ _ Hstep) as [[u [m [ts [now ->]]]] | [H | H]].
    + left. unfold handleChatMessage. now rewrite E.
    + now right.
    + now left.
Qed.

(** ** Round addresses and end times *)

(** The variables of the round that chat messages never touch. *)
Lemma handleChatMessage_round s username message timestamp now :
  let s' := fst (handleChatMessage s username message timestamp now) in
  gamePhase s' = gamePhase s /\ currentRoundId s' = currentRoundId s /\
  bettingEndTime s' = bettingEndTime s /\ fightEndTime s' = fightEndTime s /\
  bettingRoundPDA s' = bettingRoundPDA s /\ escrowPDA s' = escrowPDA s.
Proof.
  unfold handleChatMessage.
  destruct (negb _); [now repeat split |].
  destruct (messageDelta_range message) as [E | [E | E]]; rewrite E; simpl;
    now repeat split.
Qed.

Lemma round_facts_transfer (s s' : GameState) :
  gamePhase s' = gamePhase s -> currentRoundId s' = currentRoundId s ->
  bettingEndTime s' = bettingEndTime s -> fightEndTime s' = fightEndTime s ->
  bettingRoundPDA s' = bettingRoundPDA s -> escrowPDA s' = escrowPDA s ->
  roundAddresses s /\ endTimesSet s -> roundAddresses s' /\ endTimesSet s'.
Proof.
  unfold roundAddresses, endTimesSet.
  intros -> -> -> -> -> ->. tauto.
Qed.

Lemma step_round_facts (s s' : GameState) :
  roundAddresses s /\ endTimesSet s -> step s s' ->
  roundAddresses s' /\ endTimesSet s'.
Proof.
  intros Hs H.
  destruct H as [s u m ts now | s user msg now | s data | s data now
                | s ok now | s now | s account | s | s betData | s
                | s rc error | s bd | s body now].
  - unfold onChatMessage. destruct (phase_eqb _ _); [| assumption].
    destruct (handleChatMessage_round s u m ts now)
      as (? & ? & ? & ? & ? & ?).
    eapply round_facts_transfer; eassumption.
  - unfold getTest. destruct (phase_eqb _ _); [| assumption].
    match goal with
    | |- context [handleChatMessage s ?u ?m now now] =>
        destruct (handleChatMessage_round s u m now now)
          as (? & ? & ? & ? & ? & ?);
        destruct (handleChatMessage s u m now now) as [s1 eff]
    end.
    simpl in *. eapply round_facts_transfer; eassumption.
  - unfold admin_reset.
    destruct data as [data|]; [| assumption].
    destruct (_ || _); [assumption |].
    destruct (negb _); [assumption |].
    destruct (option_string_eqb _ _); [| assumption].
    unfold roundAddresses, endTimesSet. simpl.
    split; [now left | split; discriminate].
  - unfold admin_start_betting, startBettingPhase_begin.
    destruct data as [data|]; [| assumption].
    destruct (_ && _); [| assumption].
    destruct (_ && _); [assumption |].
    unfold roundAddresses, endTimesSet. simpl.
    split; [now right | split; discriminate].
  - unfold startBettingPhase_resume. destruct Hs as [Ha Ht].
    destruct ok; simpl.
    + destruct (bettingRoundPDA s) eqn:E1, (escrowPDA s) eqn:E2;
        unfold roundAddresses, endTimesSet in *; simpl; rewrite ?E1, ?E2 in Ha;
        rewrite ?E1, ?E2; (split; [exact Ha | split; discriminate]).
    + unfold roundAddresses, endTimesSet in *; simpl.
      split; [exact Ha | split; discriminate].
  - destruct Hs as [Ha Ht]. unfold roundAddresses, endTimesSet in *; simpl.
    split; [exact Ha | split; discriminate].
  - unfold loadBettingData_totals.
    repeat (destruct (BN.toNumber _); [| exact Hs]). exact Hs.
  - exact Hs.
  - unfold loadBettingData_bet.
    repeat (destruct (BN.toNumber _); [| exact Hs]). exact Hs.
  - exact Hs.
  - unfold startFightingPhase_catch. destruct Hs as [Ha Ht].
    destruct (_ && _); [now split |].
    destruct (_ >=? _); [| now split].
    unfold roundAddresses, endTimesSet in *; simpl.
    split; [exact Ha | split; discriminate].
  - destruct Hs as [Ha Ht]. unfold roundAddresses, endTimesSet in *; simpl.
    split; [exact Ha | split; discriminate].
  - unfold betNotification. destruct (option_string_eqb _ _); exact Hs.
Qed.

Lemma reachable_round_facts (s : GameState) :
  reachable s -> roundAddresses s /\ endTimesSet s.
Proof.
  induction 1 as [|s s' _ IH Hstep].
  - unfold roundAddresses, endTimesSet. simpl.
    split; [now left | split; discriminate].
  - eapply step_round_facts; eassumption.
Qed.

(** X8.  In every reachable state the stored round addresses are the ones
    derived from [currentRoundId], or the round id is 0 and both addresses are
    cleared; and [bettingEndTime] is set whenever the phase is [BETTING],
    [fightEndTime] whenever it is [FIGHTING]. *)
Theorem X8_round_addresses_and_end_times (s : GameState) :
  reachable s ->
  ((currentRoundId s = 0 /\ bettingRoundPDA s = None /\ escrowPDA s = None) \/
   (bettingRoundPDA s = Some (getBettingRoundPDA (currentRoundId s)) /\
    escrowPDA s = Some (getEscrowPDA (currentRoundId s)))) /\
  (gamePhase s = BETTING -> bettingEndTime s <> None) /\
  (gamePhase s = FIGHTING -> fightEndTime s <> None).
Proof. apply reachable_round_facts. Qed.

(** ** Errors while the fight starts *)

(** X9.  An error other than [BettingStillActive] thrown while the fight
    starts, before the fifth retry, is only logged: no retry is scheduled,
    nothing is broadcast and the state is left as it is.  When the error comes
    from [loadBettingData], after the ledger accepted the fight, the phase is
    therefore [FIGHTING] with [gameTimer] still holding the old handle: no
    fight timer is set. *)
Theorem X9_other_error_changes_nothing (s : GameState) (retryCount now : Z)
    (error : RpcError) :
  isBettingStillActive error = false -> retryCount < 5 ->
  startFightingPhase_catch s retryCount error = (s, []) /\
  let s1 := fst (startFightingPhase_started s now) in
  let r := startFightingPhase_catch s1 retryCount error in
  snd r = [] /\ gamePhase (fst r) = FIGHTING /\
  fightEndTime (fst r) = Some (now + FIGHT_DURATION * 1000) /\
  gameTimer (fst r) = gameTimer s.
Proof.
  intros He Hrc.
  split; [now apply startFightingPhase_catch_other |].
  cbv zeta. rewrite startFightingPhase_catch_other by assumption.
  simpl. now repeat split.
Qed.

(** ** Admin credentials *)

Lemma truthy_nonempty (x : string) : truthy x = true <-> x <> "".
Proof. destruct x; simpl; split; congruence. Qed.

Lemma resetGame_not_error (s : GameState) (msg : string) :
  resetGame s <> (s, [socket_emit (admin_error msg)]).
Proof.
  unfold resetGame. intros E. injection E as _ E.
  destruct (gameTimer s); simpl in E; discriminate.
Qed.

Lemma admin_reset_cases (s : GameState) (data : option AdminData) :
  (resetAuthorized data /\ admin_reset s data = resetGame s) \/
  (~ resetAuthorized data /\
   exists msg, admin_reset s data = (s, [socket_emit (admin_error msg)])).
Proof.
  unfold admin_reset, resetAuthorized.
  destruct data as [[key wallet]|]; cbn [adminKey walletAddress option_truthy negb orb andb].
  2:{ right. split; [intros (k & w & E & _); discriminate | eexists; reflexivity]. }
  destruct key as [key|]; cbn [adminKey walletAddress option_truthy negb orb andb].
  2:{ right. split; [intros (k & w & E & _); discriminate | eexists; reflexivity]. }
  destruct wallet as [wallet|]; cbn [adminKey walletAddress option_truthy negb orb andb].
  2:{ rewrite orb_true_r.
      right. split; [intros (k & w & E & _); discriminate | eexists; reflexivity]. }
  destruct (truthy key) eqn:Ek; cbn [adminKey walletAddress option_truthy negb orb andb].
  2:{ right. split; [| eexists; reflexivity].
      intros (k & w & E & Hk & _). injection E as <- <-.
      apply truthy_nonempty in Hk. congruence. }
  destruct (truthy wallet) eqn:Ew; cbn [adminKey walletAddress option_truthy negb orb andb].
  2:{ right. split; [| eexists; reflexivity].
      intros (k & w & E & _ & Hw & _). injection E as <- <-.
      apply truthy_nonempty in Hw. congruence. }
  destruct (option_string_eqb (Some wallet) ADMIN_WALLET) eqn:Ewallet; cbn [adminKey walletAddress option_truthy negb orb andb].
  2:{ right. split; [| eexists; reflexivity].
      intros (k & w & E & _ & _ & _ & Hw). injection E as <- <-.
      rewrite Hw in Ewallet. cbn [option_string_eqb] in Ewallet.
      rewrite String.eqb_refl in Ewallet. discriminate. }
  cbn [option_string_eqb].
  destruct (String.eqb key ADMIN_SECRET) eqn:Ekey.
  - left. split; [| reflexivity].
    apply String.eqb_eq in Ekey. apply option_string_eqb_eq in Ewallet.
    exists key, wallet. repeat split; auto; now apply truthy_nonempty.
  - right. split; [| eexists; reflexivity].
    intros (k & w & E & _ & _ & Hk & _). injection E as <- <-.
    subst. rewrite String.eqb_refl in Ekey. discriminate.
Qed.

(** X10.  [admin:reset] resets the game exactly when the event carries a
    non-empty key equal to [ADMIN_SECRET] and a non-empty wallet equal to
    [ADMIN_WALLET]; otherwise the state is untouched and the only effect is an
    [admin:error] to the sender.  With [ADMIN_WALLET] not configured no event
    can reset the game, while [admin:start_betting], which compares with
    [==], accepts the right key sent without a wallet. *)
Theorem X10_admin_credentials (s : GameState) :
  (forall data, admin_reset s data = resetGame s <-> resetAuthorized data) /\
  (forall data, ~ resetAuthorized data ->
     exists msg, admin_reset s data = (s, [socket_emit (admin_error msg)])) /\
  (ADMIN_WALLET = None ->
   (forall data, fst (admin_reset s data) = s) /\
   (forall now,
      admin_start_betting s
        (Some {| adminKey := Some ADMIN_SECRET; walletAddress := None |}) now =
      startBettingPhase_begin s now)).
Proof.
  split; [| split].
  - intros data. destruct (admin_reset_cases s data) as [[Ha E] | [Hn [msg E]]].
    + tauto.
    + split; [| tauto]. intros E'. rewrite E' in E.
      now apply resetGame_not_error in E.
  - intros data Hn. destruct (admin_reset_cases s data) as [[Ha E] | [_ H]];
      [contradiction | exact H].
  - intros Hw. split.
    + intros data. destruct (admin_reset_cases s data) as [[Ha E] | [_ [msg E]]].
      * destruct Ha as (k & w & _ & _ & _ & _ & Hw'). congruence.
      * now rewrite E.
    + intros now. unfold admin_start_betting. simpl.
      rewrite String.eqb_refl, Hw. reflexivity.
Qed.

(** ** Starting a round *)

(** X11.  [admin:start_betting] changes nothing while a round is in the
    betting or fighting phase, whatever the credentials.  From [IDLE] or
    [ENDED], [startBettingPhase] first clears the previous round (hit points
    at [INITIAL_HP], no hits, no log, no bets), takes the current time as
    round id and derives both addresses from it; when the ledger has accepted
    the round the phase is [BETTING], the betting ends 60 s later and the
    timer of [startFightingPhase] is set for 60 s. *)
Theorem X11_start_betting (s : GameState) (now : Z) :
  (gamePhase s = BETTING \/ gamePhase s = FIGHTING ->
   forall data, fst (admin_start_betting s data now) = s) /\
  (gamePhase s = IDLE \/ gamePhase s = ENDED ->
   let s1 := fst (startBettingPhase_begin s now) in
   fightView s1 = (INITIAL_HP, [], [], 0, None) /\
   onChainBets s1 = [] /\
   currentRoundId s1 = now /\
   bettingRoundPDA s1 = Some (getBettingRoundPDA now) /\
   escrowPDA s1 = Some (getEscrowPDA now) /\
   gamePhase s1 = IDLE /\
   forall now2,
     let r := startBettingPhase_resume s1 true now2 in
     gamePhase (fst r) = BETTING /\
     bettingEndTime (fst r) = Some (now2 + 60000) /\
     gameTimer (fst r) = Some (cb_startFightingPhase 0) /\
     In (setTimeout (cb_startFightingPhase 0) 60000) (snd r) /\
     fightView (fst r) = (INITIAL_HP, [], [], 0, None)).
Proof.
  split.
  - intros Hphase data. unfold admin_start_betting, startBettingPhase_begin.
    destruct data as [data|]; [| reflexivity].
    destruct (_ && _); [| reflexivity].
    destruct Hphase as [-> | ->]; reflexivity.
  - intros Hphase. unfold startBettingPhase_begin.
    destruct Hphase as [-> | ->]; simpl; repeat split; simpl; auto.
Qed.

(** ** Loading the bets from the ledger *)

Lemma toNumber_small (z : Z) : Z.abs z < 2 ^ 53 -> BN.toNumber z = Some z.
Proof.
  intros H. unfold BN.toNumber.
  destruct (Z.ltb_spec (Z.abs z) (2 ^ 53)); [reflexivity | lia].
Qed.

Lemma loadBettingData_totals_small (s : GameState) (account : BettingRoundAccount) :
  Z.abs (acc_totalDeathBets account) < 2 ^ 53 ->
  Z.abs (acc_totalSurvivalBets account) < 2 ^ 53 ->
  fst (loadBettingData_totals s account) =
  set_totalSurvivalBets (Double.of_Z (acc_totalSurvivalBets account))
    (set_totalDeathBets (Double.of_Z (acc_totalDeathBets account)) s).
Proof.
  intros Hd Hs. unfold loadBettingData_totals.
  rewrite (toNumber_small _ Hd), (toNumber_small _ Hs).
  now destruct (BN.toNumber (acc_totalBetsCount account)).
Qed.

Lemma loadBettingData_bet_readable (s : GameState) (b : BetData) :
  loadBettingData_bet s b =
  if readable b
  then set_onChainBets (JsMap.set (bd_bettor b) (betInfoOf b) (onChainBets s)) s
  else s.
Proof.
  unfold loadBettingData_bet, readable, BN.toNumber, betInfoOf.
  destruct (Z.abs (bd_amount b) <? 2 ^ 53); [| reflexivity].
  now destruct (Z.abs (bd_timestamp b) <? 2 ^ 53).
Qed.

Lemma addNotified_app (death : bool) (total : Double.t)
    (a b : list (BetNotification * Z)) :
  addNotified death total (a ++ b) = addNotified death (addNotified death total a) b.
Proof. apply fold_left_app. Qed.

Lemma written_app (a b : list (string * BetInfo)) (m : JsMap.t BetInfo) :
  written (a ++ b) m = written b (written a m).
Proof. apply fold_left_app. Qed.

Lemma JsMap_get_written (w : string) (writes : list (string * BetInfo))
    (m : JsMap.t BetInfo) :
  JsMap.get w (written writes m) =
  match lastWrite w writes with
  | Some v => Some v
  | None => JsMap.get w m
  end.
Proof.
  unfold lastWrite.
  induction writes as [|[k v] r IH] using rev_ind; [reflexivity |].
  rewrite written_app, rev_app_distr. cbn [written fold_left rev app find fst snd].
  destruct (String.eqb_spec k w) as [<- | Hne].
  - apply JsMap_get_set_same.
  - rewrite JsMap_get_set_other by congruence. apply IH.
Qed.

(** The state after bet notifications. *)
Lemma betNotifications_spec (ns : list (BetNotification * Z)) (s : GameState) :
  let s' := betNotifications s ns in
  totalDeathBets s' = addNotified true (totalDeathBets s) ns /\
  totalSurvivalBets s' = addNotified false (totalSurvivalBets s) ns /\
  onChainBets s' = written (notifiedWrites ns) (onChainBets s) /\
  fightView s' = fightView s /\ gamePhase s' = gamePhase s.
Proof.
  revert s. induction ns as [|[body now] r IH]; intros s; [now repeat split |].
  cbn [betNotifications fold_left fst snd].
  destruct (IH (fst (betNotification s body now))) as (H1 & H2 & H3 & H4 & H5).
  unfold betNotifications in *. rewrite H1, H2, H3, H4, H5.
  cbn [addNotified notifiedWrites map written fold_left fst snd].
  unfold betNotification, notifiedBet.
  destruct (option_string_eqb (bn_prediction body) (Some "death"));
    now repeat split.
Qed.

(** The state after the reads of the bets, with the notifications between
    them. *)
Lemma loadBettingData_reads_spec
    (reads : list (list (BetNotification * Z) * BetData)) (s : GameState) :
  let s' := fold_left
              (fun s r => loadBettingData_bet (betNotifications s (fst r)) (snd r))
              reads s in
  totalDeathBets s' = addNotified true (totalDeathBets s) (flat_map fst reads) /\
  totalSurvivalBets s' =
    addNotified false (totalSurvivalBets s) (flat_map fst reads) /\
  onChainBets s' = written (readWrites reads) (onChainBets s) /\
  fightView s' = fightView s /\ gamePhase s' = gamePhase s.
Proof.
  revert s. induction reads as [|[ns b] r IH]; intros s; [now repeat split |].
  cbn [fold_left fst snd flat_map readWrites].
  destruct (IH (loadBettingData_bet (betNotifications s ns) b))
    as (H1 & H2 & H3 & H4 & H5).
  rewrite H1, H2, H3, H4, H5. clear IH H1 H2 H3 H4 H5.
  destruct (betNotifications_spec ns s) as (N1 & N2 & N3 & N4 & N5).
  rewrite !addNotified_app, written_app, loadBettingData_bet_readable.
  fold (readWrites r). rewrite written_app.
  destruct (readable b);
    cbn [totalDeathBets totalSurvivalBets onChainBets gamePhase fightView
         set_onChainBets bossHP userHits chronological totalHits lastHitter
         written fold_left fst snd];
    rewrite ?N1, ?N2, ?N3; repeat split; assumption.
Qed.

Lemma loadBettingData_run_among (s : GameState) (account : BettingRoundAccount)
    (bets : list BetData) :
  loadBettingData_run s account bets =
  loadBettingData_among s account [] (map (fun b => ([], b)) bets).
Proof.
  unfold loadBettingData_run, loadBettingData_among.
  cbn [betNotifications fold_left].
  generalize (loadBettingData_clear (fst (loadBettingData_totals s account))).
  induction bets as [|b r IH]; intros s0; [reflexivity |].
  cbn [map fold_left fst snd betNotifications]. apply IH.
Qed.

Lemma lastWrite_bets (wallet : string) (bets : list BetData) :
  lastWrite wallet (readWrites (map (fun b => ([], b)) bets)) =
  option_map betInfoOf
    (find (fun b => readable b && String.eqb (bd_bettor b) wallet) (rev bets)).
Proof.
  unfold lastWrite.
  induction bets as [|b r IH] using rev_ind; [reflexivity |].
  rewrite map_app, rev_app_distr. unfold readWrites in *.
  rewrite flat_map_app, rev_app_distr.
  cbn [map flat_map fst snd notifiedWrites app rev find].
  destruct (readable b); cbn [rev app find andb fst snd]; [| exact IH].
  destruct (String.eqb (bd_bettor b) wallet); [reflexivity | exact IH].
Qed.

Lemma readWrites_length (bets : list BetData) :
  (List.length (readWrites (map (fun b => ([], b)) bets)) <= List.length bets)%nat.
Proof.
  induction bets as [|b r IH]; [cbn; lia |].
  cbn [map readWrites flat_map fst snd notifiedWrites app List.length].
  fold (readWrites (map (fun b => ([] : list (BetNotification * Z), b)) r)).
  rewrite length_app. destruct (readable b); cbn [List.length]; lia.
Qed.

Lemma JsMap_size_set {V : Type} (k : string) (v : V) (m : JsMap.t V) :
  (JsMap.size (JsMap.set k v m) <= S (JsMap.size m))%nat.
Proof.
  unfold JsMap.size. induction m as [|[k' v'] r IH]; simpl; [lia |].
  destruct (String.eqb k k'); simpl; lia.
Qed.

Lemma written_size (writes : list (string * BetInfo)) (m : JsMap.t BetInfo) :
  (JsMap.size (written writes m) <= JsMap.size m + List.length writes)%nat.
Proof.
  revert m. induction writes as [|[k v] r IH]; intros m;
    cbn [written fold_left List.length fst snd]; [lia |].
  etransitivity; [apply IH |].
  pose proof (JsMap_size_set k v m). lia.
Qed.


(** ** Failures during settlement *)

Lemma processBetAccounts_app winning L W feePct (l1 l2 : list BetAccount) :
  processBetAccounts winning L W feePct (l1 ++ l2) =
  (fst (processBetAccounts winning L W feePct l1) ++
   fst (processBetAccounts winning L W feePct l2),
   snd (processBetAccounts winning L W feePct l1) ++
   snd (processBetAccounts winning L W feePct l2)).
Proof.
  rewrite !processBetAccounts_spec. simpl. now rewrite !flat_map_app.
Qed.

(** X14.  [processPayouts] does nothing without a round address; it throws
    without any ledger call when the round cannot be read, or when the bet
    accounts cannot be listed although there are winners (then [claimFees] is
    not called either).  In the loop, an account whose read fails is skipped,
    and an account whose [claimPayout] fails gets no row; in both cases the
    accounts after it are processed as if it had succeeded. *)
Theorem X14_settlement_failures (s : GameState) :
  (bettingRoundPDA s = None ->
   forall fetched accounts,
     processPayouts s fetched accounts = ([], returned None)) /\
  (bettingRoundPDA s <> None ->
   (forall accounts, processPayouts s None accounts = ([], thrown)) /\
   (forall account, totalWinnerBetsOf account <> 0 ->
      processPayouts s (Some account) None = ([], thrown))) /\
  (forall winning L W feePct l1 a l2,
     ba_fetch a = None ->
     processBetAccounts winning L W feePct (l1 ++ a :: l2) =
     processBetAccounts winning L W feePct (l1 ++ l2)) /\
  (forall winning L W feePct l1 a l2,
     ba_claim a = None ->
     fst (processBetAccounts winning L W feePct (l1 ++ a :: l2)) =
       fst (processBetAccounts winning L W feePct l1) ++
       payoutCallFor winning a ++
       fst (processBetAccounts winning L W feePct l2) /\
     snd (processBetAccounts winning L W feePct (l1 ++ a :: l2)) =
       snd (processBetAccounts winning L W feePct (l1 ++ l2))).
Proof.
  split; [| split; [| split]].
  - intros Hpda fetched accounts. unfold processPayouts. now rewrite Hpda.
  - intros Hpda. unfold processPayouts.
    destruct (bettingRoundPDA s) as [pda|]; [| congruence]. split.
    + reflexivity.
    + intros account HW. unfold totalWinnerBetsOf in HW. unfold BN.toNumber.
      destruct (Z.abs (acc_totalDeathBets account) <? 2 ^ 53); [| reflexivity].
      destruct (Z.abs (acc_totalSurvivalBets account) <? 2 ^ 53); [| reflexivity].
      destruct (acc_bossDefeated account);
        match goal with
        | |- context [?x =? 0] => destruct (Z.eqb_spec x 0)
        end; try contradiction; reflexivity.
  - intros winning L W feePct l1 a l2 Hfetch.
    rewrite !processBetAccounts_spec, !flat_map_app. simpl.
    unfold payoutCallFor at 2, payoutRowFor at 2. now rewrite Hfetch.
  - intros winning L W feePct l1 a l2 Hclaim.
    rewrite !processBetAccounts_spec, !flat_map_app. simpl. split; [reflexivity |].
    unfold payoutRowFor at 2. rewrite Hclaim.
    now destruct (ba_fetch a).
Qed.

(** ** The calls of a settlement *)


(** ** The connection to the chat *)

Lemma linkStep_invariant (COIN_ADDRESS : string) (l : ChatLink) (e : LinkEvent) :
  0 <= reconnectAttempts l <= maxReconnectAttempts /\
  isConnecting l && isConnected l = false ->
  let l' := fst (linkStep COIN_ADDRESS l e) in
  0 <= reconnectAttempts l' <= maxReconnectAttempts /\
  isConnecting l' && isConnected l' = false.
Proof.
  unfold maxReconnectAttempts. intros [Hr Hf].
  destruct e; simpl.
  - unfold connectToPumpFun.
    destruct (negb _); [now split |].
    destruct (isConnecting l) eqn:E1, (isConnected l) eqn:E2; simpl;
      rewrite ?E1, ?E2; split; (lia || reflexivity || assumption).
  - split; [lia | reflexivity].
  - now split.
  - unfold onDisconnected, maxReconnectAttempts.
    destruct (Z.ltb_spec (reconnectAttempts l) 10); simpl; split; (lia || reflexivity).
Qed.

Lemma linkRun_invariant (COIN_ADDRESS : string) (events : list LinkEvent)
    (l : ChatLink) :
  0 <= reconnectAttempts l <= maxReconnectAttempts /\
  isConnecting l && isConnected l = false ->
  let l' := fst (linkRun COIN_ADDRESS l events) in
  0 <= reconnectAttempts l' <= maxReconnectAttempts /\
  isConnecting l' && isConnected l' = false.
Proof.
  revert l. induction events as [|e later IH]; intros l Hl; [exact Hl |].
  simpl. pose proof (linkStep_invariant COIN_ADDRESS l e Hl) as H1.
  destruct (linkStep COIN_ADDRESS l e) as [l1 eff1]. simpl in H1.
  pose proof (IH l1 H1) as H2.
  destruct (linkRun COIN_ADDRESS l1 later) as [l2 eff2]. exact H2.
Qed.

(** X15.  Whatever events the chat client raises and whenever
    [connectToPumpFun] is called, [reconnectAttempts] stays between 0 and
    [maxReconnectAttempts] (10), and [isConnecting] and [isConnected] are
    never both set. *)
Theorem X15_link_invariant (COIN_ADDRESS : string) (events : list LinkEvent) :
  let l := fst (linkRun COIN_ADDRESS initialLink events) in
  0 <= reconnectAttempts l <= 10 /\
  (isConnecting l = true -> isConnected l = false).
Proof.
  cbv zeta.
  destruct (linkRun_invariant COIN_ADDRESS events initialLink) as [Hr Hf].
  - simpl. unfold maxReconnectAttempts. split; [lia | reflexivity].
  - unfold maxReconnectAttempts in Hr. split; [exact Hr |].
    intros E. rewrite E in Hf. exact Hf.
Qed.

Lemma reconnects_app (a b : list LinkEffect) :
  reconnects (a ++ b) = (reconnects a + reconnects b)%nat.
Proof. unfold reconnects. now rewrite filter_app, length_app. Qed.

Lemma linkRun_budget (COIN_ADDRESS : string) (events : list LinkEvent)
    (l : ChatLink) :
  0 <= reconnectAttempts l <= 10 ->
  existsb is_ev_connected events = false ->
  Z.of_nat (reconnects (snd (linkRun COIN_ADDRESS l events))) <=
  10 - reconnectAttempts l.
Proof.
  revert l. induction events as [|e later IH]; intros l Hl Hev.
  - unfold reconnects. cbn [linkRun snd filter List.length]. lia.
  - cbn [existsb] in Hev. apply orb_false_iff in Hev as [He Hlater].
    cbn [linkRun].
    destruct (linkStep COIN_ADDRESS l e) as [l1 eff1] eqn:E1.
    specialize (IH l1).
    destruct (linkRun COIN_ADDRESS l1 later) as [l2 eff2]. cbn [snd] in *.
    rewrite reconnects_app.
    destruct e; cbn [linkStep is_ev_connected] in *; try discriminate.
    + unfold connectToPumpFun in E1.
      assert (reconnectAttempts l1 = reconnectAttempts l /\ reconnects eff1 = 0%nat)
        as [Ha Hn].
      { destruct (negb _); [injection E1 as <- <-; now split |].
        destruct (_ || _); injection E1 as <- <-; [now split |].
        split; [reflexivity |]. now destruct (pumpSocket l). }
      rewrite Ha in IH. rewrite Hn. specialize (IH Hl Hlater). lia.
    + unfold onError in E1. injection E1 as <- <-.
      cbn [reconnectAttempts] in IH. specialize (IH Hl Hlater).
      unfold reconnects at 1. cbn [filter is_reconnect List.length]. lia.
    + unfold onDisconnected, maxReconnectAttempts in E1.
      destruct (Z.ltb_spec (reconnectAttempts l) 10);
        injection E1 as <- <-; cbn [reconnectAttempts] in IH.
      * assert (H1 : 0 <= reconnectAttempts l + 1 <= 10) by lia.
        specialize (IH H1 Hlater). unfold reconnects at 1.
        cbn [filter is_reconnect List.length]. lia.
      * specialize (IH Hl Hlater). unfold reconnects at 1.
        cbn [filter is_reconnect List.length]. lia.
Qed.

Lemma linkRun_disconnects (COIN_ADDRESS : string) (n : nat) (l : ChatLink) :
  0 <= reconnectAttempts l <= 10 ->
  Z.of_nat (reconnects (snd (linkRun COIN_ADDRESS l (repeat ev_disconnected n)))) =
  Z.min (Z.of_nat n) (10 - reconnectAttempts l).
Proof.
  revert l. induction n as [|n IH]; intros l Hl.
  - unfold reconnects. cbn [repeat linkRun snd filter List.length]. lia.
  - cbn [repeat linkRun linkStep].
    unfold onDisconnected, maxReconnectAttempts.
    destruct (Z.ltb_spec (reconnectAttempts l) 10).
    + match goal with
      | |- context [linkRun _ ?l1 _] => specialize (IH l1)
      end.
      destruct (linkRun _ _ _) as [l2 eff2]. cbn [snd] in *.
      rewrite reconnects_app. unfold reconnects at 1.
      cbn [filter is_reconnect List.length reconnectAttempts] in *. lia.
    + match goal with
      | |- context [linkRun _ ?l1 _] => specialize (IH l1)
      end.
      destruct (linkRun _ _ _) as [l2 eff2]. cbn [snd] in *.
      rewrite reconnects_app. unfold reconnects at 1.
      cbn [filter is_reconnect List.length reconnectAttempts] in *. lia.
Qed.

(** X16.  Between two successful connections at most 10 reconnects are
    scheduled: along events without a ['connected'], starting with
    [reconnectAttempts = a], at most [10 - a] reconnect timers are set, so
    after the tenth the server stops reconnecting; a ['connected'] event sets
    the count back to 0.  From start-up, [n] consecutive ['disconnected']
    events schedule [min(n, 10)] reconnects, each after 5000 ms.  An
    ['error'] event schedules no reconnect and leaves the count alone, and so
    does any number of them in a row. *)
Theorem X16_reconnect_budget (COIN_ADDRESS : string) :
  (forall l events,
     0 <= reconnectAttempts l <= 10 ->
     existsb is_ev_connected events = false ->
     Z.of_nat (reconnects (snd (linkRun COIN_ADDRESS l events))) <=
     10 - reconnectAttempts l) /\
  (forall l, reconnectAttempts (fst (onConnected l)) = 0) /\
  (forall n,
     reconnects (snd (linkRun COIN_ADDRESS initialLink (repeat ev_disconnected n))) =
     Nat.min n 10) /\
  (forall l ms, In (setTimeout_connect ms) (snd (onDisconnected l)) -> ms = 5000) /\
  (forall l,
     reconnects (snd (onError l)) = 0%nat /\
     reconnectAttempts (fst (onError l)) = reconnectAttempts l) /\
  (forall l n,
     reconnects (snd (linkRun COIN_ADDRESS l (repeat ev_error n))) = 0%nat).
Proof.
  split; [| split; [| split; [| split; [| split]]]].
  - intros l events. apply linkRun_budget.
  - reflexivity.
  - intros n.
    pose proof (linkRun_disconnects COIN_ADDRESS n initialLink) as H.
    cbn [initialLink reconnectAttempts] in H. specialize (H ltac:(lia)). lia.
  - intros l ms. unfold onDisconnected, reconnectInterval.
    destruct (_ <? _); cbn [snd]; intros H.
    + destruct H as [H | [H | []]]; [discriminate | now injection H as <-].
    + destruct H as [H | []]; discriminate.
  - intros l. now split.
  - intros l n. revert l. induction n as [|n IH]; intros l; [reflexivity |].
    cbn [repeat linkRun linkStep]. unfold onError at 1.
    match goal with
    | |- context [linkRun _ ?l1 _] => specialize (IH l1)
    end.
    destruct (linkRun _ _ _) as [l2 eff2]. cbn [snd] in *.
    rewrite reconnects_app, IH. reflexivity.
Qed.

Lemma connectToPumpFun_cases (COIN_ADDRESS : string) (l : ChatLink) :
  (connectToPumpFun COIN_ADDRESS l = (l, []) /\
   (COIN_ADDRESS = "" \/ isConnecting l = true \/ isConnected l = true)) \/
  (COIN_ADDRESS <> "" /\ isConnecting l = false /\ isConnected l = false /\
   exists client old,
     connectToPumpFun COIN_ADDRESS l =
     ({| isConnecting := true; isConnected := false;
         reconnectAttempts := reconnectAttempts l; pumpSocket := Some client |},
      old ++ [client_new client COIN_ADDRESS; client_connect client]) /\
     filter is_new_client old = []).
Proof.
  unfold connectToPumpFun.
  destruct COIN_ADDRESS as [|c rest]; cbn [truthy negb].
  - left. split; [reflexivity | now left].
  - destruct (isConnecting l) eqn:E1; cbn [orb].
    + left. split; [reflexivity | auto].
    + destruct (isConnected l) eqn:E2.
      * left. split; [reflexivity | auto].
      * right. repeat split; try discriminate; try reflexivity.
        destruct (pumpSocket l) as [c0|]; do 2 eexists; split; reflexivity.
Qed.

(** X17.  [connectToPumpFun] creates a client only when a coin address is
    configured and no connection is open or being opened, and then exactly
    one, marking the link as connecting; called again before any event
    arrived it does nothing. *)
Theorem X17_connect_once (COIN_ADDRESS : string) (l : ChatLink) :
  let r := connectToPumpFun COIN_ADDRESS l in
  (snd r <> [] <->
   COIN_ADDRESS <> "" /\ isConnecting l = false /\ isConnected l = false) /\
  (List.length (filter is_new_client (snd r)) <= 1)%nat /\
  (snd r <> [] ->
   isConnecting (fst r) = true /\
   List.length (filter is_new_client (snd r)) = 1%nat) /\
  connectToPumpFun COIN_ADDRESS (fst r) = (fst r, []).
Proof.
  cbv zeta.
  destruct (connectToPumpFun_cases COIN_ADDRESS l)
    as [[E Hwhy] | (Hc & H1 & H2 & client & old & E & Hold)].
  - rewrite E. cbn [fst snd filter List.length].
    split; [| split; [lia | split; [congruence | exact E]]].
    split; [congruence |]. intros (Hc & H1 & H2).
    destruct Hwhy as [-> | [H | H]]; congruence.
  - rewrite E. cbn [fst snd].
    assert (Hn : List.length
                   (filter is_new_client
                      (old ++ [client_new client COIN_ADDRESS; client_connect client])) =
                 1%nat).
    { rewrite filter_app, Hold. reflexivity. }
    split; [| split; [lia | split; [intros _; split; [reflexivity | exact Hn] |]]].
    + split; [intros _; auto |]. intros _ Hnil.
      apply (f_equal (@List.length _)) in Hnil. rewrite length_app in Hnil.
      simpl in Hnil. lia.
    + unfold connectToPumpFun.
      destruct COIN_ADDRESS; [congruence | reflexivity].
Qed.

(** ** The snapshot for a joining client *)

(** X18.  The snapshot sent to a joining overlay client carries the last
    [min(10, length)] entries of [chronological], in order, and at most 3
    leaderboard rows; both remaining times are non-negative, the betting time
    is 0 outside the betting phase and the fight time 0 outside the fighting
    phase, so at most one of them is positive. *)
Theorem X18_snapshot (s : GameState) (now : Z) (connected : bool) :
  let snap := stateSnapshot s now connected in
  List.length (snap_chronological snap) =
    Nat.min 10 (List.length (chronological s)) /\
  (exists older, chronological s = older ++ snap_chronological snap) /\
  (List.length (snap_top snap) <= 3)%nat /\
  0 <= snap_timeRemaining snap /\ 0 <= snap_fightTimeRemaining snap /\
  (gamePhase s <> BETTING -> snap_timeRemaining snap = 0) /\
  (gamePhase s <> FIGHTING -> snap_fightTimeRemaining snap = 0) /\
  (snap_timeRemaining snap = 0 \/ snap_fightTimeRemaining snap = 0).
Proof.
  cbv zeta. unfold stateSnapshot.
  cbn [snap_chronological snap_top snap_timeRemaining snap_fightTimeRemaining].
  unfold slice_last.
  split; [rewrite length_skipn; lia |].
  split; [eexists; symmetry; apply firstn_skipn |].
  split; [unfold getTop, slice0; apply firstn_le_length |].
  destruct (gamePhase s); cbn [phase_eqb];
    repeat split; try lia; try congruence; auto.
Qed.

(** ** Case of the letters *)

Lemma messageDelta_toUpperCase (m m' : JsString.t) :
  JsString.toUpperCase m = JsString.toUpperCase m' ->
  messageDelta m = messageDelta m'.
Proof. intros H. unfold messageDelta. now rewrite H. Qed.

Lemma eq_ignore_case_ascii_upper (m : JsString.t) :
  is_ascii m -> eq_ignore_case (map ascii_upper m) m.
Proof.
  induction 1 as [|c r Hc Hr IH]; [constructor |].
  cbn [map]. constructor; [| exact IH].
  unfold same_letter, ascii_upper.
  destruct (Z.leb_spec 0x61 c), (Z.leb_spec c 0x7A); cbn [andb]; lia.
Qed.

(** X19.  The effect of a message does not depend on the case of its
    letters: two messages that differ only in the case of letters of the
    ASCII range, code unit by code unit, have the same delta, and so have a
    message of the ASCII range and its upper-case form. *)
Theorem X19_delta_ignores_case (m m' : JsString.t) :
  eq_ignore_case m m' ->
  messageDelta m = messageDelta m' /\
  (is_ascii m -> messageDelta (JsString.toUpperCase m) = messageDelta m).
Proof.
  intros H. split.
  - now apply messageDelta_toUpperCase, eq_ignore_case_toUpperCase.
  - intros Ha. rewrite (toUpperCase_ascii m Ha).
    now apply messageDelta_toUpperCase, eq_ignore_case_toUpperCase,
      eq_ignore_case_ascii_upper.
Qed.

(** ** The configured keywords *)

Lemma split_comma_nonempty (s : JsString.t) : JsString.split_comma s <> [].
Proof.
  induction s as [|c t IH]; simpl; [discriminate |].
  destruct (c =? 0x2C); [discriminate |].
  destruct (JsString.split_comma t); discriminate.
Qed.

Lemma split_comma_app (a b : JsString.t) :
  JsString.split_comma (a ++ [0x2C] ++ b) =
  JsString.split_comma a ++ JsString.split_comma b.
Proof.
  induction a as [|c t IH]; [reflexivity |].
  cbn [app JsString.split_comma] in *.
  destruct (c =? 0x2C); [now rewrite IH |].
  rewrite IH. pose proof (split_comma_nonempty t) as Hne.
  destruct (JsString.split_comma t) as [|h r]; [contradiction | reflexivity].
Qed.

Lemma split_comma_no_comma (s : JsString.t) :
  Forall (fun p => ~ In 0x2C p) (JsString.split_comma s).
Proof.
  induction s as [|c t IH]; cbn [JsString.split_comma].
  - repeat constructor. intros [].
  - destruct (Z.eqb_spec c 0x2C) as [Ec | Ec].
    + constructor; [intros [] | assumption].
    + destruct (JsString.split_comma t) as [|h r].
      * repeat constructor. intros [H | []]. congruence.
      * apply Forall_cons_iff in IH as [Hh Hr]. constructor; [| assumption].
        intros [H | H]; [congruence | contradiction].
Qed.

Lemma trimStart_suffix (s : JsString.t) :
  exists pre, s = pre ++ JsString.trimStart s.
Proof.
  induction s as [|c t [pre IH]]; [now exists [] |].
  cbn [JsString.trimStart]. destruct (JsString.is_white_space c).
  - exists (c :: pre). cbn [app]. now f_equal.
  - now exists [].
Qed.

Lemma trimEnd_prefix (s : JsString.t) :
  exists post, s = JsString.trimEnd s ++ post.
Proof.
  induction s as [|c t [post IH]]; [now exists [] |].
  cbn [JsString.trimEnd]. destruct (JsString.trimEnd t) as [|d t'].
  - destruct (JsString.is_white_space c).
    + now exists (c :: t).
    + exists post. cbn [app] in *. now f_equal.
  - exists post. cbn [app] in *. now f_equal.
Qed.

Lemma trim_In (c : Z) (s : JsString.t) : In c (JsString.trim s) -> In c s.
Proof.
  unfold JsString.trim. intros H.
  destruct (trimEnd_prefix (JsString.trimStart s)) as [post E].
  destruct (trimStart_suffix s) as [pre E'].
  rewrite E', E. apply in_or_app. right. apply in_or_app. now left.
Qed.

Lemma is_white_space_In (c : Z) :
  JsString.is_white_space c = false -> ~ In c JsString.white_space.
Proof.
  unfold JsString.is_white_space. intros H Hin.
  assert (E : existsb (Z.eqb c) JsString.white_space = true).
  { apply existsb_exists. exists c. split; [assumption | apply Z.eqb_refl]. }
  congruence.
Qed.

Lemma trimStart_head (s : JsString.t) (c : Z) (r : JsString.t) :
  JsString.trimStart s = c :: r -> JsString.is_white_space c = false.
Proof.
  induction s as [|d t IH]; [discriminate |].
  cbn [JsString.trimStart]. destruct (JsString.is_white_space d) eqn:Ed.
  - exact IH.
  - intros H. injection H as <- _. exact Ed.
Qed.

Lemma trimEnd_head (s : JsString.t) (c : Z) (r : JsString.t) :
  JsString.trimEnd s = c :: r -> exists t, s = c :: t.
Proof.
  destruct s as [|d t]; [discriminate |].
  cbn [JsString.trimEnd]. destruct (JsString.trimEnd t).
  - destruct (JsString.is_white_space d); [discriminate |].
    intros H. injection H as <- _. now exists t.
  - intros H. injection H as <- _. now exists t.
Qed.

Lemma trimEnd_last (s : JsString.t) (c : Z) (r : JsString.t) :
  JsString.trimEnd s = r ++ [c] -> JsString.is_white_space c = false.
Proof.
  revert r. induction s as [|d t IH]; intros r.
  - destruct r; discriminate.
  - cbn [JsString.trimEnd]. destruct (JsString.trimEnd t) as [|e t'] eqn:E.
    + destruct (JsString.is_white_space d) eqn:Ed.
      * destruct r; discriminate.
      * destruct r as [|x [|y r]]; try discriminate.
        intros H. injection H as <-. exact Ed.
    + destruct r as [|x r]; [discriminate |].
      intros H. injection H as _ H. now apply (IH r).
Qed.

(** X20.  Every keyword the configuration yields is non-empty, neither
    begins nor ends with a white-space code unit, and contains no comma; and
    the keywords of two lists joined by a comma are those of the first
    followed by those of the second. *)
Theorem X20_keywords_well_formed (s : JsString.t) :
  Forall (fun k => k <> [] /\
                   (forall c r, k = c :: r -> ~ In c JsString.white_space) /\
                   (forall c r, k = r ++ [c] -> ~ In c JsString.white_space) /\
                   ~ In 0x2C k)
         (parseKeywords s) /\
  (forall a b,
     parseKeywords (a ++ [0x2C] ++ b) = parseKeywords a ++ parseKeywords b).
Proof.
  split.
  - unfold parseKeywords. apply Forall_forall. intros k Hk.
    apply filter_In in Hk as [Hin Htruthy].
    apply in_map_iff in Hin as [p [<- Hp]].
    split; [intros E; rewrite E in Htruthy; discriminate |].
    split; [| split].
    + intros c r E. apply is_white_space_In. unfold JsString.trim in E.
      destruct (trimEnd_head _ _ _ E) as [t Et].
      now apply (trimStart_head p c t).
    + intros c r E. apply is_white_space_In. unfold JsString.trim in E.
      exact (trimEnd_last _ c r E).
    + intros Hc. apply trim_In in Hc.
      pose proof (split_comma_no_comma s) as Hall.
      rewrite Forall_forall in Hall. exact (Hall _ Hp Hc).
  - intros a b. unfold parseKeywords.
    now rewrite split_comma_app, map_app, filter_app.
Qed.

(** ** After the fight *)

(** X21.  Once the phase is [ENDED] (as [endFight] leaves it) the round is
    frozen: chat messages and [/test] requests change nothing, a late call of
    [endFight] or [startFightingPhase] returns at once without any effect,
    and a late error of [startFightingPhase] before the fifth retry leaves the
    phase alone.  [endFight] itself keeps the fight variables as they are
    when it builds the results. *)
Theorem X21_ended_is_frozen (s : GameState) :
  gamePhase s = ENDED ->
  (forall username message timestamp now,
     onChatMessage s username message timestamp now = (s, [])) /\
  (forall user msg now, getTest s user msg now = (s, [res_json 200])) /\
  (forall reason, endFight_begin s reason = (s, [], None)) /\
  (forall retryCount, startFightingPhase_begin s retryCount = []) /\
  (forall bossDefeated s0,
     fightView (fst (endFight_finish s0 bossDefeated)) = fightView s0 /\
     gamePhase (fst (endFight_finish s0 bossDefeated)) = ENDED).
Proof.
  intros Hphase. repeat split.
  - intros. unfold onChatMessage. now rewrite Hphase.
  - intros. unfold getTest. now rewrite Hphase.
  - intros. unfold endFight_begin. now rewrite Hphase.
  - intros. unfold startFightingPhase_begin. now rewrite Hphase.
Qed.

(** ** The log only grows *)

(** X22.  A step of the server never rewrites the log: it either resets the
    fight ([chronological] empty, [totalHits] 0), or leaves [chronological]
    and [totalHits] as they are, or, in the fighting phase, appends exactly
    one entry to [chronological] and raises [totalHits] by 1 for a damage
    entry and by 0 for a heal entry. *)
Theorem X22_log_append_only (s s' : GameState) :
  step s s' ->
  (chronological s' = [] /\ totalHits s' = 0) \/
  (chronological s' = chronological s /\ totalHits s' = totalHits s) \/
  (gamePhase s = FIGHTING /\
   exists e,
     chronological s' = chronological s ++ [e] /\
     ((he_delta e = -1 /\ totalHits s' = totalHits s + 1) \/
      (he_delta e = 1 /\ totalHits s' = totalHits s))).
Proof.
  intros Hstep.
  destruct (step_fightView _ _ Hstep) as [[u [m [ts [now ->]]]] | [E | E]].
  - destruct (handleChatMessage_cases s u m ts now)
      as [[E _] | [[Hf [_ E]] | [Hf [_ E]]]].
    + right; left. now rewrite E.
    + right; right. split; [assumption |].
      unfold fightView in E. injection E as _ _ Hc Ht _.
      eexists. split; [exact Hc |]. left. now split.
    + right; right. split; [assumption |].
      unfold fightView in E. injection E as _ _ Hc Ht _.
      eexists. split; [exact Hc |]. right. now split.
  - left. unfold fightView in E. injection E as _ _ Hc Ht _. now split.
  - right; left. unfold fightView in E. injection E as _ _ Hc Ht _. now split.
Qed.

(** ** A round of the scenarios is reachable *)

Lemma bettingRound_reachable (now : Z) : reachable (bettingRound now).
Proof.
  unfold bettingRound.
  eapply reachable_step; [| apply step_betting_resume].
  eapply reachable_step; [apply reachable_init | apply step_admin_start_betting].
Qed.

Lemma fightingRound_reachable (now : Z) : reachable (fightingRound now).
Proof.
  unfold fightingRound.
  eapply reachable_step; [| apply step_fighting_finish].
  eapply reachable_step; [| apply step_fighting_started].
  apply bettingRound_reachable.
Qed.

Lemma afterMessages_reachable (s : GameState)
    (msgs : list (string * JsString.t)) (now : Z) :
  reachable s -> reachable (afterMessages s msgs now).
Proof.
  revert s. induction msgs as [|m r IH]; intros s Hs; simpl; [assumption |].
  apply IH. eapply reachable_step; [exact Hs | apply step_chat].
Qed.

End Server.

(** * The scenarios of the spec, evaluated

    [INITIAL_HP=3], keywords ["HIT"] and ["HEAL"]; the round starts at time
    1000 and the fight at 61000. *)

(** C1, at the end of the spec's scenario 1 and after it.  After the hits of
    alice and bob the boss has 1 hit point; the third hit, by alice, takes it
    to 0.  The phase is still [FIGHTING], the fight timer is still set, and
    the only effect is the [update] broadcast: nothing starts the fight-end
    flow.  The next hit, by bob, is appended to [chronological] and counted
    in [totalHits] and [userHits], with [bossHP] staying 0; a heal by eve
    then takes [bossHP] back to 1.  When the fight timer runs
    [endFight('timeout')] after bob's hit the boss counts as defeated; when
    it runs after eve's heal the boss counts as having survived. *)
Theorem C1_fight_goes_on_at_zero :
  let s := afterMessages scenarioEnv (fightingRound scenarioEnv 1000)
             [("alice", js "HIT"); ("bob", js "HIT")] 62000 in
  let r := onChatMessage scenarioEnv s "alice" (js "HIT") 63000 63000 in
  let r2 := onChatMessage scenarioEnv (fst r) "bob" (js "HIT") 64000 64000 in
  let r3 := onChatMessage scenarioEnv (fst r2) "eve" (js "HEAL") 65000 65000 in
  (gamePhase s = FIGHTING /\ bossHP s = 1 /\ bossHP (fst r) = 0) /\
  (gamePhase (fst r) = FIGHTING /\
   gameTimer (fst r) = Some (cb_endFight "timeout") /\
   snd r = [updateOf scenarioEnv (fst r)
              (entryOf "alice" (js "HIT") 63000 (-1)) 63000] /\
   startsFightEnd (snd r) = false) /\
  (chronological (fst r2) =
     chronological (fst r) ++ [entryOf "bob" (js "HIT") 64000 (-1)] /\
   userHits (fst r2) = [("alice", 2); ("bob", 2)] /\
   totalHits (fst r2) = 4 /\ bossHP (fst r2) = 0 /\
   gamePhase (fst r2) = FIGHTING) /\
  (bossHP (fst r3) = 1 /\ gamePhase (fst r3) = FIGHTING) /\
  snd (endFight_begin (fst r2) "timeout") = Some true /\
  snd (endFight_begin (fst r3) "timeout") = Some false.
Proof. vm_compute. repeat split. Qed.

Lemma C3_bossHP_witness :
  let s := afterMessages scenarioEnv (fightingRound scenarioEnv 1000)
             [("alice", js "HIT"); ("bob", js "HIT"); ("alice", js "HIT");
              ("bob", js "HIT")]
             62000 in
  (0 <= INITIAL_HP scenarioEnv /\ reachable scenarioEnv s) /\
  0 <= bossHP s <= INITIAL_HP scenarioEnv.
Proof.
  intros s.
  assert (Hmax : 0 <= INITIAL_HP scenarioEnv) by (vm_compute; discriminate).
  assert (Hreach : reachable scenarioEnv s)
    by apply afterMessages_reachable, fightingRound_reachable.
  split; [now split |].
  exact (C3_bossHP_in_range scenarioEnv s Hmax Hreach).
Defined.

(** The spec's heal edge: [bossHP = 1], eve heals, [bossHP = 2]. *)
Lemma C7_heal_frame_witness :
  let s := afterMessages scenarioEnv (fightingRound scenarioEnv 1000)
             [("alice", js "HIT"); ("bob", js "HIT")] 62000 in
  let s' := fst (handleChatMessage scenarioEnv s "eve" (js "HEAL") 63000 63000) in
  (0 <= INITIAL_HP scenarioEnv /\ reachable scenarioEnv s /\
   gamePhase s = FIGHTING /\ messageDelta scenarioEnv (js "HEAL") = 1) /\
  s' = set_bossHP (Z.min (INITIAL_HP scenarioEnv) (bossHP s + 1))
         (set_chronological
            (chronological s ++ [entryOf "eve" (js "HEAL") 63000 1]) s) /\
  userHits s' = userHits s /\
  lastHitter s' = lastHitter s /\
  totalHits s' = totalHits s.
Proof.
  intros s s'.
  assert (Hmax : 0 <= INITIAL_HP scenarioEnv) by (vm_compute; discriminate).
  assert (Hreach : reachable scenarioEnv s)
    by apply afterMessages_reachable, fightingRound_reachable.
  assert (Hphase : gamePhase s = FIGHTING) by (vm_compute; reflexivity).
  assert (Hd : messageDelta scenarioEnv (js "HEAL") = 1) by (vm_compute; reflexivity).
  split; [now repeat split |].
  exact (C7_heal_frame scenarioEnv s "eve" (js "HEAL") 63000 63000
           Hmax Hreach Hphase Hd).
Defined.

(** C8 at a state with [bossHP = 2] of 3, strictly inside the range: damage
    and then heal do not give the state back; and at [bossHP = 3], the top of
    the range, they give [bossHP = 3] back, with no clamping at work. *)
Lemma C8_counterexample :
  let S := afterMessages scenarioEnv (fightingRound scenarioEnv 1000)
             [("alice", js "HIT")] 62000 in
  let S2 := afterMessages scenarioEnv S
              [("bob", js "HIT"); ("eve", js "HEAL")] 63000 in
  let T := fightingRound scenarioEnv 1000 in
  let T2 := afterMessages scenarioEnv T
              [("bob", js "HIT"); ("eve", js "HEAL")] 63000 in
  (gamePhase S = FIGHTING /\ 0 < bossHP S < INITIAL_HP scenarioEnv /\ S2 <> S) /\
  (gamePhase T = FIGHTING /\ bossHP T = INITIAL_HP scenarioEnv /\
   bossHP T2 = bossHP T /\ totalHits T2 = totalHits T + 1).
Proof.
  intros S S2 T T2. split; split; try (vm_compute; reflexivity).
  - split; [now vm_compute |].
    intros E. apply (f_equal totalHits) in E. vm_compute in E. discriminate.
  - vm_compute. repeat split.
Qed.

Lemma C8_damage_then_heal_witness :
  let S := afterMessages scenarioEnv (fightingRound scenarioEnv 1000)
             [("alice", js "HIT")] 62000 in
  let S1 := fst (handleChatMessage scenarioEnv S "bob" (js "HIT") 63000 63000) in
  let S2 := fst (handleChatMessage scenarioEnv S1 "eve" (js "HEAL") 64000 64000) in
  (0 <= INITIAL_HP scenarioEnv /\ reachable scenarioEnv S /\
   gamePhase S = FIGHTING /\
   messageDelta scenarioEnv (js "HIT") = -1 /\
   messageDelta scenarioEnv (js "HEAL") = 1) /\
  (bossHP S2 = bossHP S <-> 0 < bossHP S \/ INITIAL_HP scenarioEnv = 0) /\
  S2 <> S.
Proof.
  intros S S1 S2.
  assert (Hmax : 0 <= INITIAL_HP scenarioEnv) by (vm_compute; discriminate).
  assert (Hreach : reachable scenarioEnv S)
    by apply afterMessages_reachable, fightingRound_reachable.
  assert (Hphase : gamePhase S = FIGHTING) by (vm_compute; reflexivity).
  assert (Hd1 : messageDelta scenarioEnv (js "HIT") = -1) by (vm_compute; reflexivity).
  assert (Hd2 : messageDelta scenarioEnv (js "HEAL") = 1) by (vm_compute; reflexivity).
  split; [now repeat split |].
  apply (C8_damage_then_heal scenarioEnv S "bob" (js "HIT") 63000 63000
           "eve" (js "HEAL") 64000 64000 Hmax Hreach Hphase Hd1 Hd2).
Defined.

(** C5, at a settlement with the boss defeated: one bet of 3.99 SOL on
    death, the whole winner pool, and 9.77 SOL on survival, fee 5%.  In
    integers the fee is 488500000 lamports, the prize pool 9281500000 and
    the winner's share the whole of it.  [processPayouts] computes the
    product [prizePool * betAmount], which has more than 53 bits, as a
    number, and reports a share of 9281499999 lamports, one less. *)
Theorem C5_payout_rounding :
  let s := fightingRound scenarioEnv 1000 in
  let account := {| acc_bossDefeated := true;
                    acc_totalDeathBets := 3990000000;
                    acc_totalSurvivalBets := 9770000000;
                    acc_totalBetsCount := 2;
                    acc_feePercentage := 5;
                    acc_roundId := 1000 |} in
  let bet := {| ba_pubkey := "bet1";
                ba_fetch := Some {| bd_username := "ann";
                                    bd_amount := 3990000000;
                                    bd_prediction := "death";
                                    bd_bettor := "wallet1";
                                    bd_timestamp := 10 |};
                ba_claim := Some "sig1" |} in
  let row := {| pr_username := "ann";
                pr_wallet := "wallet1";
                pr_betAmount := in_SOL (Double.of_Z 3990000000);
                pr_prizeShare := in_SOL (Double.of_Z 9281499999);
                pr_totalPayout := in_SOL (Double.of_Z (3990000000 + 9281499999));
                pr_signature := "sig1" |} in
  processPayouts s (Some account) (Some [bet]) =
    ([rpc (rpc_claimPayout "bet1" "wallet1"); rpc rpc_claimFees;
      io_emit (payouts_processed true "death" [row])],
     returned (Some [row])) /\
  specPayout 9770000000 3990000000 5 3990000000 = 3990000000 + 9281500000 /\
  Double.of_Z 9281499999 <> Double.of_Z 9281500000.
Proof.
  vm_compute. split; [reflexivity |]. split; [reflexivity | discriminate].
Qed.

(** ** Numbers and strings at work *)

(** A notification of 8.2 SOL: the product [8.2 * 1000000000] is the number
    8199999999.999999 (8598323199999999 * 2^-20), not 8200000000, and that
    is what is stored and added to the total. *)
Example betNotification_8_2_SOL :
  let body := {| bn_walletAddress := "wallet3";
                 bn_username := Some "cy";
                 bn_amount := Double.div (Double.of_Z 82) (Double.of_Z 10);
                 bn_prediction := Some "death";
                 bn_signature := Some "sig3" |} in
  let s' := fst (betNotification (bettingRound scenarioEnv 1000) body 2000) in
  totalDeathBets s' = S754_finite false 8598323199999999 (-20) /\
  option_map bet_amount (JsMap.get "wallet3" (onChainBets s')) =
    Some (S754_finite false 8598323199999999 (-20)) /\
  Double.of_Z 8200000000 = S754_finite false 8598323200000000 (-20).
Proof. vm_compute. repeat split. Qed.

(** A round whose total on death has 54 bits: [toNumber] throws, and so does
    [processPayouts], before any ledger call. *)
Example processPayouts_toNumber_throws :
  let account := {| acc_bossDefeated := true;
                    acc_totalDeathBets := 2 ^ 53;
                    acc_totalSurvivalBets := 1000000000;
                    acc_totalBetsCount := 2;
                    acc_feePercentage := 5;
                    acc_roundId := 1000 |} in
  processPayouts (fightingRound scenarioEnv 1000) (Some account) (Some []) =
    ([], thrown).
Proof. vm_compute. reflexivity. Qed.

(** Beyond the ASCII range the upper-case forms decide: the message "hıt",
    with a dotless i (U+0131), whose upper case is I, contains the keyword
    HIT and deals damage, and so does "ﬁght hit" after its ligature.  White
    space of every script is trimmed from a configured keyword. *)
Example messageDelta_dotless_i :
  messageDelta scenarioEnv [0x68; 0x131; 0x74] = -1 /\
  JsString.toUpperCase ([0xFB01] ++ js "ght hit") = js "FIGHT HIT" /\
  parseKeywords ([0xA0] ++ js "hit" ++ [0x3000; 0x2C; 0xFEFF] ++ js "heal") =
    [js "hit"; js "heal"].
Proof. vm_compute. repeat split. Qed.

(** * The further properties, at the scenarios

    The state after the hits of alice, bob and alice, and the betting phase
    of the same round. *)

Lemma X1_user_hits_witness :
  let s := afterMessages scenarioEnv (fightingRound scenarioEnv 1000)
             [("alice", js "HIT"); ("bob", js "HIT"); ("alice", js "HIT")]
             62000 in
  reachable scenarioEnv s /\
  hitsOf "alice" (userHits s) = countUserDamage "alice" (chronological s).
Proof.
  intros s.
  assert (Hreach : reachable scenarioEnv s)
    by apply afterMessages_reachable, fightingRound_reachable.
  split; [exact Hreach |].
  exact (X1_user_hits_match_log scenarioEnv s "alice" Hreach).
Defined.

Lemma X2_lastHitter_witness :
  let s := afterMessages scenarioEnv (fightingRound scenarioEnv 1000)
             [("alice", js "HIT"); ("bob", js "HIT"); ("eve", js "HEAL")]
             62000 in
  reachable scenarioEnv s /\
  lastHitter s = lastDamager (chronological s) /\
  Forall (fun e => he_delta e = -1 \/ he_delta e = 1) (chronological s).
Proof.
  intros s.
  assert (Hreach : reachable scenarioEnv s)
    by apply afterMessages_reachable, fightingRound_reachable.
  split; [exact Hreach |].
  exact (X2_lastHitter_is_latest_damager scenarioEnv s Hreach).
Defined.

Lemma X3_defeat_witness :
  let s := afterMessages scenarioEnv (fightingRound scenarioEnv 1000)
             [("alice", js "HIT"); ("bob", js "HIT"); ("alice", js "HIT")]
             62000 in
  reachable scenarioEnv s /\
  INITIAL_HP scenarioEnv - totalHits s <= bossHP s /\
  (bossHP s = 0 -> INITIAL_HP scenarioEnv <= totalHits s) /\
  (forall reason, reason <> "defeated" ->
     snd (endFight_begin s reason) = Some true ->
     INITIAL_HP scenarioEnv <= totalHits s).
Proof.
  intros s.
  assert (Hreach : reachable scenarioEnv s)
    by apply afterMessages_reachable, fightingRound_reachable.
  split; [exact Hreach |].
  exact (X3_defeat_needs_enough_hits scenarioEnv s Hreach).
Defined.

Lemma X4_getTop_users_witness :
  let s := afterMessages scenarioEnv (fightingRound scenarioEnv 1000)
             [("alice", js "HIT"); ("bob", js "HIT"); ("alice", js "HIT")]
             62000 in
  reachable scenarioEnv s /\
  NoDup (usersOf (getTop s 3)) /\
  Forall (fun row => 1 <= hits row) (getTop s 3).
Proof.
  intros s.
  assert (Hreach : reachable scenarioEnv s)
    by apply afterMessages_reachable, fightingRound_reachable.
  split; [exact Hreach |].
  exact (X4_getTop_users scenarioEnv s 3 Hreach).
Defined.

Lemma X6_results_witness :
  let s := afterMessages scenarioEnv (fightingRound scenarioEnv 1000)
             [("alice", js "HIT"); ("bob", js "HIT"); ("alice", js "HIT")]
             62000 in
  let r := buildResults s true in
  reachable scenarioEnv s /\
  res_totalHits r = sumZ (map hits (res_scores r)) /\
  (forall row, In row (res_scores r) -> 1 <= hits row <= res_topDamage r) /\
  (res_topDamageDealer r = None <-> res_totalHits r = 0) /\
  (forall user, res_topDamageDealer r = Some user ->
     In {| username := user; hits := res_topDamage r |} (res_scores r)).
Proof.
  intros s r.
  assert (Hreach : reachable scenarioEnv s)
    by apply afterMessages_reachable, fightingRound_reachable.
  split; [exact Hreach |].
  exact (X6_results_consistent scenarioEnv s true Hreach).
Defined.

Lemma X7_outside_fighting_witness :
  let s := bettingRound scenarioEnv 1000 in
  gamePhase s <> FIGHTING /\
  onChatMessage scenarioEnv s "alice" (js "HIT") 2000 2000 = (s, []) /\
  getTest scenarioEnv s (Some "alice") (Some (js "HIT")) 2000 =
    (s, [res_json 200]) /\
  (forall s', step scenarioEnv s s' ->
     fightView s' = fightView s \/
     fightView s' = (INITIAL_HP scenarioEnv, [], [], 0, None)).
Proof.
  intros s.
  assert (Hphase : gamePhase s <> FIGHTING) by (vm_compute; discriminate).
  split; [exact Hphase |].
  destruct (X7_no_fight_change_outside_fighting scenarioEnv s Hphase)
    as (Hchat & Htest & Hstep).
  split; [apply Hchat | split; [apply Htest | exact Hstep]].
Defined.

Lemma X8_round_witness :
  let s := fightingRound scenarioEnv 1000 in
  reachable scenarioEnv s /\
  ((currentRoundId s = 0 /\ bettingRoundPDA s = None /\ escrowPDA s = None) \/
   (bettingRoundPDA s = Some (getBettingRoundPDA (currentRoundId s)) /\
    escrowPDA s = Some (getEscrowPDA (currentRoundId s)))) /\
  (gamePhase s = BETTING -> bettingEndTime s <> None) /\
  (gamePhase s = FIGHTING -> fightEndTime s <> None).
Proof.
  intros s.
  assert (Hreach : reachable scenarioEnv s) by apply fightingRound_reachable.
  split; [exact Hreach |].
  exact (X8_round_addresses_and_end_times scenarioEnv s Hreach).
Defined.

Lemma X9_other_error_witness :
  let s := bettingRound scenarioEnv 1000 in
  let error := {| errorCode := Some "AccountNotFound" |} in
  let s1 := fst (startFightingPhase_started s 61000) in
  let r := startFightingPhase_catch s1 0 error in
  (isBettingStillActive error = false /\ 0 < 5) /\
  startFightingPhase_catch s 0 error = (s, []) /\
  snd r = [] /\ gamePhase (fst r) = FIGHTING /\
  fightEndTime (fst r) = Some (61000 + FIGHT_DURATION * 1000) /\
  gameTimer (fst r) = gameTimer s.
Proof.
  intros s error s1 r.
  assert (He : isBettingStillActive error = false) by (vm_compute; reflexivity).
  assert (Hrc : 0 < 5) by lia.
  split; [now split |].
  exact (X9_other_error_changes_nothing s 0 61000 error He Hrc).
Defined.


Lemma X19_delta_case_witness :
  eq_ignore_case (js "hit me") (js "HIT ME") /\
  messageDelta scenarioEnv (js "hit me") = messageDelta scenarioEnv (js "HIT ME") /\
  (is_ascii (js "hit me") ->
   messageDelta scenarioEnv (JsString.toUpperCase (js "hit me")) =
   messageDelta scenarioEnv (js "hit me")).
Proof.
  assert (H : eq_ignore_case (js "hit me") (js "HIT ME")).
  { unfold eq_ignore_case.
    change (js "hit me") with [104; 105; 116; 32; 109; 101].
    change (js "HIT ME") with [72; 73; 84; 32; 77; 69].
    repeat (constructor; [unfold same_letter; lia |]). constructor. }
  split; [exact H |].
  exact (X19_delta_ignores_case scenarioEnv (js "hit me") (js "HIT ME") H).
Defined.

Lemma X21_ended_witness :
  let s := fst (endFight_finish
                  (afterMessages scenarioEnv (fightingRound scenarioEnv 1000)
                     [("alice", js "HIT"); ("bob", js "HIT"); ("alice", js "HIT")]
                     62000)
                  true) in
  gamePhase s = ENDED /\
  (forall username message timestamp now,
     onChatMessage scenarioEnv s username message timestamp now = (s, [])) /\
  (forall reason, endFight_begin s reason = (s, [], None)).
Proof.
  intros s.
  assert (Hphase : gamePhase s = ENDED) by (vm_compute; reflexivity).
  split; [exact Hphase |].
  destruct (X21_ended_is_frozen scenarioEnv s Hphase) as (Hchat & _ & Hend & _).
  split; [exact Hchat | exact Hend].
Defined.

Lemma X22_log_witness :
  let s := fightingRound scenarioEnv 1000 in
  let s' := fst (onChatMessage scenarioEnv s "alice" (js "HIT") 62000 62000) in
  step scenarioEnv s s' /\
  ((chronological s' = [] /\ totalHits s' = 0) \/
   (chronological s' = chronological s /\ totalHits s' = totalHits s) \/
   (gamePhase s = FIGHTING /\
    exists e,
      chronological s' = chronological s ++ [e] /\
      ((he_delta e = -1 /\ totalHits s' = totalHits s + 1) \/
       (he_delta e = 1 /\ totalHits s' = totalHits s)))).
Proof.
  intros s s'.
  assert (Hstep : step scenarioEnv s s') by apply step_chat.
  split; [exact Hstep |].
  exact (X22_log_append_only scenarioEnv s s' Hstep).
Defined.

